(** * CFO change monitor: a shallow embedding of [cfo_monitor.py]

    The development follows the Python source function by function.

    - Python [str] values are lists of characters over the ASCII
      repertoire ([str := list ascii]); the classification used by
      [str.strip], [str.split], [\s] and [\w] is Python's, restricted to
      code points below 128.
    - The dictionaries built by the two sources (one per finding) and by
      the enrichment step (one per tear sheet) are finite maps from
      string keys to Python values.
    - The object state ([self.results], [self.tear_sheets]) is threaded
      through a small state-and-trace monad; every call that crosses a
      process boundary (HTTP, feed fetch, sleep, SMTP) is recorded as an
      event, and what the outside world answers is read from a [world]
      record.  An exception caught by one of the [try] blocks is an
      answer of the world ([SecError], [None] for a news feed, [ApiError],
      the [smtp_reply] errors).  Console output is not modelled.
    - A point in time is the number of microseconds since the midnight
      before day 1 of the proleptic Gregorian calendar, the scale on
      which Python subtracts two naive datetimes; the timestamp of an
      entry is the [struct_time] the feed parser built, converted as the
      [datetime] constructor does, ranges checked.
    - Rendering a document is a call into the document library, answered
      by the [world]. *)

From Stdlib Require Import Ascii String NArith ZArith Lia Bool.
From Stdlib Require Import DecimalString.
From stdpp Require Import base list gmap strings.

Set Default Proof Using "Type".

(** ** Characters and Python string operations *)

Module PyStr.

Definition str := list ascii.

(** String literals of the source. *)
Definition py (s : string) : str := list_ascii_of_string s.

Definition code (c : ascii) : N := N_of_ascii c.

Definition in_range (lo hi : N) (c : ascii) : bool :=
  ((lo <=? code c) && (code c <=? hi))%N.

(** [[A-Z]], [[a-z]] and the decimal digits. *)
Definition is_AZ (c : ascii) : bool := in_range 65 90 c.
Definition is_az (c : ascii) : bool := in_range 97 122 c.
Definition is_digit (c : ascii) : bool := in_range 48 57 c.

(** [str.isspace] / [\s]: TAB..CR, FS..US and the space. *)
Definition isspace (c : ascii) : bool := in_range 9 13 c || in_range 28 32 c.

(** [\w]: alphanumerics and the underscore. *)
Definition is_word (c : ascii) : bool :=
  is_AZ c || is_az c || is_digit c || Ascii.eqb c "_".

Definition is_cased (c : ascii) : bool := is_AZ c || is_az c.

Definition lower_char (c : ascii) : ascii :=
  if is_AZ c then ascii_of_N (code c + 32) else c.

Definition upper_char (c : ascii) : ascii :=
  if is_az c then ascii_of_N (code c - 32) else c.

(** [s.lower()] *)
Definition lower (s : str) : str := map lower_char s.

(** [s.title()]: a cased character is upper-cased when the character
    before it is not cased, lower-cased otherwise. *)
Fixpoint titlecase_from (prev_cased : bool) (s : str) : str :=
  match s with
  | [] => []
  | c :: s' =>
      (if prev_cased then lower_char c else upper_char c)
        :: titlecase_from (is_cased c) s'
  end.

Definition titlecase (s : str) : str := titlecase_from false s.

Fixpoint lstrip (s : str) : str :=
  match s with
  | [] => []
  | c :: s' => if isspace c then lstrip s' else s
  end.

Definition rstrip (s : str) : str := rev (lstrip (rev s)).

(** [s.strip()] *)
Definition strip (s : str) : str := rstrip (lstrip s).

(** [s.split()]: the maximal runs of non-whitespace characters. *)
Fixpoint split_acc (cur : str) (s : str) : list str :=
  match s with
  | [] => if decide (cur = []) then [] else [rev cur]
  | c :: s' =>
      if isspace c
      then (if decide (cur = []) then split_acc [] s'
            else rev cur :: split_acc [] s')
      else split_acc (c :: cur) s'
  end.

Definition split (s : str) : list str := split_acc [] s.

(** [s.startswith(p)] *)
Fixpoint startswith (p s : str) : bool :=
  match p, s with
  | [], _ => true
  | _ :: _, [] => false
  | a :: p', b :: s' => Ascii.eqb a b && startswith p' s'
  end.

(** [sub in s] *)
Fixpoint contains (sub s : str) : bool :=
  startswith sub s ||
  match s with
  | [] => false
  | _ :: s' => contains sub s'
  end.

(** [s.split(sep)[0]] for a non-empty [sep]: the text before the first
    occurrence of [sep], the whole of [s] when there is none. *)
Fixpoint split_head (sep s : str) : str :=
  match s with
  | [] => []
  | c :: s' => if startswith sep s then [] else c :: split_head sep s'
  end.

(** [s.replace(a, b)] for one-character [a] and [b]. *)
Definition replace (a b : ascii) (s : str) : str :=
  map (fun c => if Ascii.eqb c a then b else c) s.

Definition str_eqb (a b : str) : bool := bool_decide (a = b).

(** [x in xs] for a list of strings. *)
Definition str_in (x : str) (xs : list str) : bool :=
  existsb (str_eqb x) xs.

(** [str(n)] for a natural number. *)
Definition str_of_nat (n : nat) : str :=
  py (NilZero.string_of_uint (Nat.to_uint n)).

End PyStr.

Import PyStr.

(** ** A backtracking matcher for the regular expressions of the source *)

Module Regex.

Inductive regex :=
| Eps
| Chr (c : ascii)
| Cls (p : ascii -> bool)
| Seq (r1 r2 : regex)
| Alt (r1 r2 : regex)
| Plus (r : regex)
| Group (r : regex).

Section Backtrack.
Context {A : Type}.

(** A continuation receives the rest of the input and the text of
    group 1, when the group has been closed. *)
Definition cont := str -> option str -> option A.

Definition orelse (x : option A) (y : option A) : option A :=
  match x with Some a => Some a | None => y end.

(** Greedy repetition of [step], at least once: after each iteration
    that consumed input another is tried before the continuation.  The
    counter bounds the iterations; [S (length s)] is never used up
    because every further iteration starts on a shorter input. *)
Fixpoint rep (step : str -> option str -> cont -> option A)
    (n : nat) (s : str) (g : option str) (k : cont) : option A :=
  match n with
  | O => None
  | S n' =>
      step s g (fun s1 g1 =>
        orelse (if (length s1 <? length s)%nat then rep step n' s1 g1 k
                else None)
               (k s1 g1))
  end.

Fixpoint bt (r : regex) (s : str) (g : option str) (k : cont)
    {struct r} : option A :=
  match r with
  | Eps => k s g
  | Chr c =>
      match s with
      | x :: s' => if Ascii.eqb x c then k s' g else None
      | [] => None
      end
  | Cls p =>
      match s with
      | x :: s' => if p x then k s' g else None
      | [] => None
      end
  | Seq r1 r2 => bt r1 s g (fun s1 g1 => bt r2 s1 g1 k)
  | Alt r1 r2 => orelse (bt r1 s g k) (bt r2 s g k)
  | Plus r1 => rep (bt r1) (S (length s)) s g k
  | Group r1 =>
      bt r1 s g (fun s1 _ => k s1 (Some (take (length s - length s1) s)))
  end.
End Backtrack.

(** A match object: where the match starts and the text of group 1. *)
Record match_obj := { m_start : nat; m_group1 : option str }.

(** [re.match] at the head of [s]. *)
Definition match_here (r : regex) (s : str) : option (option str) :=
  bt r s None (fun _ g => Some g).

(** [re.search(r, s)]: the start positions are tried from left to right,
    the position after the last character included. *)
Fixpoint search_from (i : nat) (r : regex) (s : str) : option match_obj :=
  match match_here r s with
  | Some g => Some {| m_start := i; m_group1 := g |}
  | None =>
      match s with
      | [] => None
      | _ :: s' => search_from (S i) r s'
      end
  end.

Definition search (r : regex) (s : str) : option match_obj :=
  search_from 0 r s.

(** [m.group(1)] *)
Definition group1 (m : match_obj) : str := default [] (m_group1 m).

(** Pattern constructors. *)
Fixpoint lit (s : str) : regex :=
  match s with
  | [] => Eps
  | [c] => Chr c
  | c :: s' => Seq (Chr c) (lit s')
  end.

Fixpoint alts (r : regex) (rs : list regex) : regex :=
  match rs with
  | [] => r
  | r' :: rs' => Alt r (alts r' rs')
  end.

End Regex.

Import Regex.


(** ** Text extraction *)

(** [\s+] *)
Definition ws : regex := Plus (Cls isspace).

(** [[A-Z][a-z]+] *)
Definition cap_word : regex := Seq (Cls is_AZ) (Plus (Cls is_az)).

(** [[A-Z][a-z]+(?:\s+[A-Z][a-z]+)+] *)
Definition name_re : regex := Seq cap_word (Plus (Seq ws cap_word)).

(** [(?:appoints|names|hires|welcomes)\s+(NAME)] *)
Definition pattern1 : regex :=
  Seq (alts (lit (py "appoints"))
            [lit (py "names"); lit (py "hires"); lit (py "welcomes")])
      (Seq ws (Group name_re)).

(** [(NAME)\s+(?:as|named|appointed|joins)] *)
Definition pattern2 : regex :=
  Seq (Group name_re)
      (Seq ws (alts (lit (py "as"))
                    [lit (py "named"); lit (py "appointed"); lit (py "joins")])).

(** [CFO\s+(NAME)] *)
Definition pattern3 : regex :=
  Seq (lit (py "CFO")) (Seq ws (Group name_re)).

Definition patterns : list regex := [pattern1; pattern2; pattern3].

Definition false_positives : list str :=
  [py "Chief Financial"; py "Financial Officer"].

(** The test applied to the captured name:
    [len(name.split()) >= 2 and name not in [...]]. *)
Definition name_ok (name : str) : bool :=
  (2 <=? length (split name))%nat && negb (str_in name false_positives).

(** The loop [for pattern in patterns] of [_extract_individual_name];
    falling off the end of the list is [return None]. *)
Fixpoint scan_patterns (text : str) (ps : list regex) : option str :=
  match ps with
  | [] => None
  | pattern :: ps' =>
      match search pattern text with
      | Some m =>
          let name := strip (group1 m) in
          if name_ok name then Some name else scan_patterns text ps'
      | None => scan_patterns text ps'
      end
  end.

Definition _extract_individual_name (title summary : str) : option str :=
  let text := title ++ py " " ++ summary in
  scan_patterns text patterns.

Definition company_keywords : list str :=
  [py "appoints"; py "hires"; py "names"; py "announces"; py "welcomes"].

Definition company_sentinel : str := py "Company in article".

(** The loop [for keyword in keywords] of [_extract_company]. *)
Fixpoint scan_keywords (title : str) (kws : list str) : str :=
  match kws with
  | [] => company_sentinel
  | keyword :: kws' =>
      if contains keyword (lower title) then
        let part0 := split_head keyword (lower title) in
        match part0 with
        | _ :: _ => titlecase (strip part0)
        | [] => scan_keywords title kws'
        end
      else scan_keywords title kws'
  end.

Definition _extract_company (title : str) : str :=
  scan_keywords title company_keywords.

(** [re.sub(r'[^\w\s-]', '', name)]: the characters outside the class
    are deleted. *)
Definition kept_char (c : ascii) : bool :=
  is_word c || isspace c || Ascii.eqb c "-".

Definition _sanitize_filename (name : str) : str :=
  take 50 (replace " " "_" (strip (List.filter kept_char name))).


(** ** Data model *)

(** The Python values stored in the dictionaries of this program. *)
Inductive pyval :=
| PNone
| PStr (s : str).

#[global] Instance pyval_eq_dec : EqDecision pyval.
Proof. solve_decision. Defined.

(** Truth value of a Python value: [None] and the empty string are
    false. *)
Definition truthy (v : pyval) : bool :=
  match v with
  | PNone => false
  | PStr [] => false
  | PStr (_ :: _) => true
  end.

(** The text an f-string puts for [{v}]. *)
Definition fmt (v : pyval) : str :=
  match v with
  | PNone => py "None"
  | PStr s => s
  end.

Definition of_option (o : option str) : pyval :=
  match o with
  | Some s => PStr s
  | None => PNone
  end.

Abbreviation dict := (gmap string pyval).

(** [d.get(k)] and [d.get(k, dflt)]: the default is used when the key is
    missing, not when the stored value is [None]. *)
Definition dict_get (d : dict) (k : string) : pyval := default PNone (d !! k).
Definition dict_get_default (d : dict) (k : string) (dflt : pyval) : pyval :=
  default dflt (d !! k).

(** [d[k]].  Every dictionary of this program is built by a literal that
    carries each key it is later subscripted with, so the [KeyError] of a
    missing key does not arise and is not modelled. *)
Definition item (d : dict) (k : string) : pyval := default PNone (d !! k).

(** A dictionary literal. *)
Definition dict_lit (kvs : list (string * pyval)) : dict := list_to_map kvs.

(** The first six fields of a [time.struct_time], the ones the slice
    [[:6]] of the source keeps: year, month, day, hour, minute, second. *)
Record struct_time := {
  tm_year : Z;
  tm_mon : Z;
  tm_mday : Z;
  tm_hour : Z;
  tm_min : Z;
  tm_sec : Z
}.

(** The calendar of Python's [datetime] module. *)
Definition is_leap (year : Z) : bool :=
  ((year mod 4 =? 0) && (negb (year mod 100 =? 0) || (year mod 400 =? 0)))%Z.

Definition days_in_month (year month : Z) : Z :=
  if ((month =? 2) && is_leap year)%Z then 29%Z
  else nth (Z.to_nat month) [0; 31; 28; 31; 30; 31; 30; 31; 31; 30; 31; 30; 31]%Z 0%Z.

Definition days_before_year (year : Z) : Z :=
  let y := (year - 1)%Z in (y * 365 + y / 4 - y / 100 + y / 400)%Z.

Definition days_before_month (year month : Z) : Z :=
  (nth (Z.to_nat month)
       [0; 0; 31; 59; 90; 120; 151; 181; 212; 243; 273; 304; 334] 0
   + (if (2 <? month) && is_leap year then 1 else 0))%Z.

(** [date.toordinal()]: day 1 is January 1 of year 1. *)
Definition ymd2ord (year month day : Z) : Z :=
  (days_before_year year + days_before_month year month + day)%Z.

Definition in_bounds (lo hi x : Z) : bool := ((lo <=? x) && (x <=? hi))%Z.

(** [datetime(year, month, day, hour, minute, second)] on the six fields
    of a [struct_time]: [None] stands for the [ValueError] raised when a
    field is out of range (year 1..9999, month 1..12, day within the
    month, hour 0..23, minute and second 0..59); otherwise the point in
    time, in microseconds. *)
Definition datetime (t : struct_time) : option Z :=
  if in_bounds 1 9999 (tm_year t) && in_bounds 1 12 (tm_mon t)
     && in_bounds 1 (days_in_month (tm_year t) (tm_mon t)) (tm_mday t)
     && in_bounds 0 23 (tm_hour t) && in_bounds 0 59 (tm_min t)
     && in_bounds 0 59 (tm_sec t)
  then Some ((ymd2ord (tm_year t) (tm_mon t) (tm_mday t) * 86400
              + tm_hour t * 3600 + tm_min t * 60 + tm_sec t) * 1000000)%Z
  else None.

(** A raw feed entry, as [feedparser] hands it over; a field the feed
    omitted is [None].  [e_published_parsed] is the [struct_time] under
    [published_parsed], and [e_source] the nested source dictionary with
    its optional title. *)
Record entry := {
  e_title : option str;
  e_summary : option str;
  e_link : option str;
  e_published : option str;
  e_published_parsed : option struct_time;
  e_source : option (option str)
}.

(** [self] of [CFOMonitor]. *)
Record monitor := {
  email_to : str;
  email_from : str;
  email_password : str;
  anthropic_api_key : option str;
  results : list dict;
  tear_sheets : list dict
}.

(** [CFOMonitor.__init__] *)
Definition CFOMonitor (to from password : str) (key : option str) : monitor :=
  {| email_to := to; email_from := from; email_password := password;
     anthropic_api_key := key; results := []; tear_sheets := [] |}.

(** ** The outside world *)

(** What [requests.get] on the filings feed and [feedparser.parse] of
    its body give: an exception, or a status code with the entries. *)
Inductive sec_reply :=
| SecError
| SecResponse (status : Z) (entries : list entry).

Record block := { b_type : option str; b_text : option str }.

(** What [requests.post] to the messages endpoint gives: an exception, or
    a status code with the [content] list of the JSON body ([None] when
    the body does not decode, which raises inside the [try]). *)
Inductive api_reply :=
| ApiError
| ApiResponse (status : Z) (content : option (list block)).

Inductive smtp_reply :=
| SmtpConnectError
| SmtpLoginError
| SmtpSendError
| SmtpOk.

Record world := {
  w_sec : sec_reply;
  (** the feed of a news query; [None] when the fetch raises *)
  w_news : str -> option (list entry);
  (** [datetime.now()], read while entry [j] of the feed of a query is
      examined *)
  w_now : str -> nat -> Z;
  (** [datetime.now().strftime("%B %d, %Y")] *)
  w_today : str;
  (** the reply to the [n]-th POST of the run *)
  w_api : nat -> api_reply;
  (** what [_create_word_document] returns for a document text: the bytes
      of the file, or [None] when rendering raises *)
  w_render : str -> option str;
  w_smtp : smtp_reply
}.

Inductive prompt :=
| CompanyPrompt (company_name generated : str)
| IndividualPrompt (individual_name company_name generated : str).

Record message := {
  msg_subject : str;
  msg_from : str;
  msg_to : str;
  msg_body : str;
  (** file name and payload of each attached part *)
  msg_attachments : list (str * str)
}.

(** The calls that leave the process. *)
Inductive event :=
| EvSecGet (user_agent : str)
| EvFeedParse (url : str)
| EvSleep (milliseconds : nat)
| EvApiPost (p : prompt)
| EvSmtpConnect
| EvSmtpLogin (user password : str)
| EvSmtpSend (m : message).

Definition is_api_post (e : event) : bool :=
  match e with EvApiPost _ => true | _ => false end.

Definition is_smtp (e : event) : bool :=
  match e with
  | EvSmtpConnect | EvSmtpLogin _ _ | EvSmtpSend _ => true
  | _ => false
  end.

(** ** State and trace *)

Record state := { self : monitor; trace : list event }.

Definition M (A : Type) : Type := state -> A * state.

Definition ret {A} (a : A) : M A := fun st => (a, st).

Definition bind {A B} (m : M A) (f : A -> M B) : M B :=
  fun st => let (a, st') := m st in f a st'.

Declare Scope monitor_scope.
Delimit Scope monitor_scope with mon.
Notation "x <- m ;; k" := (bind m (fun x => k))
  (at level 100, m at next level, k at level 200) : monitor_scope.
Notation "m ;; k" := (bind m (fun _ => k))
  (at level 100, k at level 200) : monitor_scope.
Local Open Scope monitor_scope.

Definition exec {A} (m : M A) (st : state) : state := snd (m st).

Definition get_self : M monitor := fun st => (self st, st).

Definition emit (e : event) : M unit :=
  fun st => (tt, {| self := self st; trace := trace st ++ [e] |}).

(** [self.results.append(result)] *)
Definition append_result (result : dict) : M unit :=
  fun st =>
    let m := self st in
    (tt, {| self := {| email_to := email_to m; email_from := email_from m;
                       email_password := email_password m;
                       anthropic_api_key := anthropic_api_key m;
                       results := results m ++ [result];
                       tear_sheets := tear_sheets m |};
            trace := trace st |}).

(** [self.tear_sheets.append(sheet)] *)
Definition append_tear_sheet (sheet : dict) : M unit :=
  fun st =>
    let m := self st in
    (tt, {| self := {| email_to := email_to m; email_from := email_from m;
                       email_password := email_password m;
                       anthropic_api_key := anthropic_api_key m;
                       results := results m;
                       tear_sheets := tear_sheets m ++ [sheet] |};
            trace := trace st |}).

(** [for x in xs: body(x)] *)
Fixpoint for_each {A} (xs : list A) (body : A -> M unit) : M unit :=
  match xs with
  | [] => ret tt
  | x :: xs' => body x ;; for_each xs' body
  end.

Definition when (b : bool) (m : M unit) : M unit := if b then m else ret tt.

(** How a statement inside a [try] block ends: it completes, or it raises
    an exception that the [except] clause of the block catches. *)
Inductive outcome :=
| Completed
| Raised.

(** [for j, x in enumerate(xs)] counted from [j], inside a [try] block:
    the loop is left at the first body that raises. *)
Fixpoint try_each_from {A} (j : nat) (xs : list A) (body : nat -> A -> M outcome)
    : M outcome :=
  match xs with
  | [] => ret Completed
  | x :: xs' =>
      o <- body j x ;;
      match o with
      | Completed => try_each_from (S j) xs' body
      | Raised => ret Raised
      end
  end.

(** ** The operations of [CFOMonitor] *)

Definition as_str (v : pyval) : str :=
  match v with
  | PStr s => s
  | PNone => []
  end.

(** [v == s] for a string [s]. *)
Definition val_is (v : pyval) (s : str) : bool := bool_decide (v = PStr s).

(** [v.startswith(p)] *)
Definition val_startswith (p : str) (v : pyval) : bool :=
  match v with
  | PStr s => startswith p s
  | PNone => false
  end.

Definition cfo_keywords : list str :=
  [py "cfo"; py "chief financial officer"; py "financial officer"].

Definition search_queries : list str :=
  [py "CFO appointed"; py "CFO hired"; py "Chief Financial Officer joins";
   py "CFO departure"; py "CFO steps down"; py "new CFO"; py "names CFO";
   py "appoints Chief Financial Officer"].

(** [timedelta(days=2)] in microseconds. *)
Definition two_days : Z := 2 * 86400 * 1000000.

(** [datetime.now() - entry_date > timedelta(days=2)] *)
Definition too_old (now entry_date : Z) : bool :=
  (two_days <? now - entry_date)%Z.

Definition sec_finding (e : entry) : dict :=
  let title := default [] (e_title e) in
  let summary := default [] (e_summary e) in
  let link := default [] (e_link e) in
  let company_name :=
    if contains (py "(") title then strip (split_head (py "(") title)
    else title in
  dict_lit
    [("source"%string, PStr (py "SEC EDGAR"));
     ("company"%string, PStr company_name);
     ("title"%string, PStr title);
     ("summary"%string, PStr (take 300 summary));
     ("url"%string, PStr link);
     ("date"%string, PStr (default (py "N/A") (e_published e)));
     ("individual"%string, of_option (_extract_individual_name title summary))].

Definition news_finding (e : entry) : dict :=
  let title := default [] (e_title e) in
  let link := default [] (e_link e) in
  let source := default (py "Unknown") (default None (e_source e)) in
  dict_lit
    [("source"%string, PStr (py "News: " ++ source));
     ("company"%string, PStr (_extract_company title));
     ("title"%string, PStr title);
     ("summary"%string, PStr []);
     ("url"%string, PStr link);
     ("date"%string, PStr (default (py "N/A") (e_published e)));
     ("individual"%string, of_option (_extract_individual_name title []))].

(** [any(r.get('url') == link for r in self.results)] *)
Definition url_seen (link : str) (rs : list dict) : bool :=
  existsb (fun r => val_is (dict_get r "url") link) rs.

Section Operations.
Variable w : world.

(** Body of the loop over the filings feed. *)
Definition sec_entry (e : entry) : M unit :=
  let title := default [] (e_title e) in
  let summary := default [] (e_summary e) in
  let text := lower (title ++ py " " ++ summary) in
  when (existsb (fun keyword => contains keyword text) cfo_keywords)
       (append_result (sec_finding e)).

Definition search_sec_filings : M unit :=
  m <- get_self ;;
  emit (EvSecGet (email_from m ++ py " CFO Monitor Script")) ;;
  match w_sec w with
  | SecError => ret tt
  | SecResponse status entries =>
      emit (EvSleep 100) ;;
      when (status =? 200)%Z (for_each entries sec_entry)
  end.

(** The second half of the body of the loop over a news feed: the
    duplicate test and the append. *)
Definition keep_entry (e : entry) : M outcome :=
  let link := default [] (e_link e) in
  m <- get_self ;;
  when (negb (url_seen link (results m)))
       (append_result (news_finding e)) ;;
  ret Completed.

(** Body of the loop over the first five entries of a news feed.  When a
    timestamp is there the [datetime] is built first, which raises on a
    field out of range; an entry older than two days is skipped by
    [continue]. *)
Definition news_entry (now : Z) (e : entry) : M outcome :=
  match e_published_parsed e with
  | Some pub_date =>
      match datetime pub_date with
      | None => ret Raised
      | Some entry_date =>
          if too_old now entry_date then ret Completed
          else keep_entry e
      end
  | None => keep_entry e
  end.

Definition news_url (query : str) : str :=
  py "https://news.google.com/rss/search?q=" ++ replace " " "+" query
    ++ py "&hl=en-US&gl=US&ceid=US:en".

Definition news_query (query : str) : M unit :=
  emit (EvFeedParse (news_url query)) ;;
  match w_news w query with
  | None => ret tt
  | Some entries =>
      emit (EvSleep 500) ;;
      try_each_from 0 (take 5 entries)
        (fun j e => news_entry (w_now w query j) e) ;;
      ret tt
  end.

Definition search_news : M unit := for_each search_queries news_query.

(** What the two generators return for a reply: the text of the first
    content block of a 200 response when that block is of type
    [text], [None] otherwise. *)
Definition reply_text (r : api_reply) : option str :=
  match r with
  | ApiError => None
  | ApiResponse status content =>
      if (status =? 200)%Z then
        match content with
        | Some (b :: _) =>
            if bool_decide (b_type b = Some (py "text"))
            then Some (default [] (b_text b))
            else None
        | _ => None
        end
      else None
  end.

Definition post (p : prompt) : M (option str) :=
  fun st =>
    let n := length (List.filter is_api_post (trace st)) in
    (reply_text (w_api w n),
     {| self := self st; trace := trace st ++ [EvApiPost p] |}).

Definition _generate_company_tear_sheet (result : dict) : M (option str) :=
  post (CompanyPrompt (fmt (item result "company")) (w_today w)).

Definition _generate_individual_tear_sheet (result : dict)
    : M (option str) :=
  post (IndividualPrompt (fmt (dict_get result "individual"))
                         (fmt (item result "company")) (w_today w)).

Definition company_sheet (result : dict) (doc : option str) : dict :=
  dict_lit
    [("type"%string, PStr (py "company"));
     ("company"%string, item result "company");
     ("document"%string, of_option doc);
     ("filename"%string,
      PStr (_sanitize_filename (as_str (item result "company"))
              ++ py "_Company_TearSheet.docx"))].

Definition individual_sheet (result : dict) (doc : option str) : dict :=
  dict_lit
    [("type"%string, PStr (py "individual"));
     ("individual"%string, item result "individual");
     ("company"%string, item result "company");
     ("document"%string, of_option doc);
     ("filename"%string,
      PStr (_sanitize_filename (as_str (item result "individual"))
              ++ py "_Individual_TearSheet.docx"))].

(** Body of the loop of [generate_tear_sheets]. *)
Definition enrich (result : dict) : M unit :=
  company_doc <- _generate_company_tear_sheet result ;;
  when (truthy (of_option company_doc))
       (append_tear_sheet (company_sheet result company_doc)) ;;
  when (truthy (dict_get result "individual"))
       (individual_doc <- _generate_individual_tear_sheet result ;;
        when (truthy (of_option individual_doc))
             (append_tear_sheet (individual_sheet result individual_doc))) ;;
  emit (EvSleep 2000).

Definition generate_tear_sheets : M unit :=
  m <- get_self ;;
  if negb (truthy (of_option (anthropic_api_key m))) then ret tt
  else for_each (results m) enrich.
End Operations.

(** ** Report assembly *)

Definition nl : str := [ascii_of_nat 10].
Definition dq : str := [ascii_of_nat 34].

(** An attribute value between double quotes. *)
Definition quoted (s : str) : str := dq ++ s ++ dq.

(** The lines of a template, each closed by a line break. *)
Definition template (ls : list str) : str := concat (map (fun l => l ++ nl) ls).

(** The list line of one finding:
    [individual = result.get('individual', 'Individual name not identified')]
    and [f"<li><strong>{result['company']}</strong> - {individual}</li>"]. *)
Definition finding_line (result : dict) : str :=
  let individual :=
    dict_get_default result "individual"
      (PStr (py "Individual name not identified")) in
  py "<li><strong>" ++ fmt (item result "company") ++ py "</strong> - "
    ++ fmt individual ++ py "</li>".

Definition email_head (today : str) (total num_companies num_sec num_news
    num_sheets : nat) : str :=
  nl ++ template
    [py "        <html>";
     py "        <head>";
     py "            <style>";
     py "                body { font-family: Arial, sans-serif; line-height: 1.6; color: #333; }";
     py "                .summary { background-color: #ecf0f1; padding: 20px; margin: 20px 0; border-radius: 5px; }";
     py "                .highlight { color: #2c3e50; font-weight: bold; }";
     py "                ul { margin: 10px 0; }";
     py "                li { margin: 5px 0; }";
     py "            </style>";
     py "        </head>";
     py "        <body>";
     py "            <div class=" ++ quoted (py "summary") ++ py ">";
     py "                <h2>CFO Changes Summary - " ++ today ++ py "</h2>";
     py "                <p>Our automated monitoring system has identified <span class="
       ++ quoted (py "highlight") ++ py ">" ++ str_of_nat total
       ++ py " CFO-related changes</span> across <span class="
       ++ quoted (py "highlight") ++ py ">" ++ str_of_nat num_companies
       ++ py " companies</span> in the past 24 hours. We found "
       ++ str_of_nat num_sec ++ py " official SEC filings and "
       ++ str_of_nat num_news
       ++ py " news articles reporting these executive movements. Detailed company and individual tear sheets are attached as Word documents for your review and analysis. Please see the attachments for comprehensive research on each identified change.</p>";
     py "                ";
     py "                <h3>Quick Stats:</h3>";
     py "                <ul>";
     py "                    <li><strong>Total Findings:</strong> " ++ str_of_nat total ++ py "</li>";
     py "                    <li><strong>Companies Affected:</strong> " ++ str_of_nat num_companies ++ py "</li>";
     py "                    <li><strong>SEC Filings:</strong> " ++ str_of_nat num_sec ++ py "</li>";
     py "                    <li><strong>News Articles:</strong> " ++ str_of_nat num_news ++ py "</li>";
     py "                    <li><strong>Tear Sheets Generated:</strong> " ++ str_of_nat num_sheets ++ py "</li>";
     py "                </ul>";
     py "                ";
     py "                <h3>Identified Changes:</h3>";
     py "                <ul>"]
  ++ py "        ".

Definition email_tail : str :=
  nl ++ template
    [py "                </ul>";
     py "            </div>";
     py "        </body>";
     py "        </html>"]
  ++ py "        ".

(** [num_individuals] is computed by the source and never used; it is
    left out. *)
Definition _create_email_body (today : str) (m : monitor) : str :=
  let rs := results m in
  let num_companies :=
    length (remove_dups (map (fun r => item r "company") rs)) in
  let num_sec :=
    length (List.filter (fun r => val_is (item r "source") (py "SEC EDGAR")) rs) in
  let num_news :=
    length (List.filter (fun r => val_startswith (py "News") (item r "source")) rs) in
  email_head today (length rs) num_companies num_sec num_news
             (length (tear_sheets m))
    ++ concat (map finding_line rs)
    ++ email_tail.

(** The part built for one tear sheet inside its [try] block: the file
    name and the bytes of the rendered document, or nothing when
    rendering raises and the tear sheet is passed over. *)
Definition attachment (render : str -> option str) (tear_sheet : dict)
    : option (str * str) :=
  match render (as_str (item tear_sheet "document")) with
  | Some payload => Some (as_str (item tear_sheet "filename"), payload)
  | None => None
  end.

Section Delivery.
Variable w : world.

Definition send_email : M unit :=
  m <- get_self ;;
  match results m with
  | [] => ret tt
  | _ :: _ =>
      let msg :=
        {| msg_subject :=
             py "CFO Changes Alert - " ++ w_today w ++ py " ("
               ++ str_of_nat (length (results m)) ++ py " findings)";
           msg_from := email_from m;
           msg_to := email_to m;
           msg_body := _create_email_body (w_today w) m;
           msg_attachments := omap (attachment (w_render w)) (tear_sheets m) |} in
      emit EvSmtpConnect ;;
      match w_smtp w with
      | SmtpConnectError => ret tt
      | _ =>
          emit (EvSmtpLogin (email_from m) (email_password m)) ;;
          match w_smtp w with
          | SmtpLoginError => ret tt
          | _ => emit (EvSmtpSend msg)
          end
      end
  end.

(** The two scans of [run]. *)
Definition scan : M unit := search_sec_filings w ;; search_news w.

Definition run : M unit :=
  scan ;;
  m <- get_self ;;
  when (negb (bool_decide (results m = []))) (generate_tear_sheets w) ;;
  send_email.
End Delivery.

Definition start (m : monitor) : state := {| self := m; trace := [] |}.

(** ** Predicates and example inputs used in the statements *)

(** A stripped string is empty or starts with a character that is not
    whitespace. *)
Definition starts_clean (s : str) : Prop :=
  match s with
  | [] => True
  | c :: _ => isspace c = false
  end.

(** What a character of a sanitized name can be. *)
Definition clean_char (c : ascii) : Prop :=
  kept_char c = true /\ c <> " "%char.

(** The horizontal tab, a whitespace character that is not the space. *)
Definition tab : ascii := ascii_of_nat 9.

(** The input of the counterexample: 49 letters, a tab, one more letter. *)
Definition long_tabbed : str := repeat "a"%char 49 ++ [tab] ++ py "b".

(** A keyword that does not occur, or occurs with nothing before it, is
    passed over. *)
Definition passed_over (title keyword : str) : Prop :=
  contains keyword (lower title) = true -> split_head keyword (lower title) = [].

(** Events of the scans: neither mail nor enrichment traffic. *)
Definition quiet (e : event) : Prop :=
  is_smtp e = false /\ is_api_post e = false.

(** A finding is built by one of the two sources from an entry of its
    feed: any entry of a filings feed answered with status 200, one of
    the first five entries of the feed of a news query. *)
Inductive from_feed (w : world) : dict -> Prop :=
| from_sec entries e :
    w_sec w = SecResponse 200 entries -> In e entries ->
    from_feed w (sec_finding e)
| from_news query entries e :
    In query search_queries -> w_news w query = Some entries ->
    In e (take 5 entries) ->
    from_feed w (news_finding e).

(** How the state after a scan relates to the state before it: the trace
    has grown by quiet events, the findings by findings built from the
    feeds, and neither the tear sheets nor the key have changed. *)
Record scanned (w : world) (st st' : state) : Prop := {
  sc_trace : exists evs, trace st' = trace st ++ evs /\ Forall quiet evs;
  sc_results :
    exists rs, results (self st') = results (self st) ++ rs
               /\ Forall (from_feed w) rs;
  sc_sheets : tear_sheets (self st') = tear_sheets (self st);
  sc_key : anthropic_api_key (self st') = anthropic_api_key (self st)
}.

(** Operations that leave [self.results] as it is. *)
Definition keeps_results {A} (m : M A) : Prop :=
  forall st, results (self (snd (m st))) = results (self st).

(** Every fetch fails. *)
Definition silent_world : world :=
  {| w_sec := SecError; w_news := fun _ => None; w_now := fun _ _ => 0%Z;
     w_today := py "November 03, 2026"; w_api := fun _ => ApiError;
     w_render := Some; w_smtp := SmtpOk |}.

(** One news article without a name, returned for the query "new CFO". *)
Definition report_article : entry :=
  {| e_title := Some (py "XYZ Files Report"); e_summary := None;
     e_link := Some (py "https://news.example/xyz");
     e_published := None; e_published_parsed := None; e_source := None |}.

(** The filings fetch fails and one news query returns that article. *)
Definition one_article_world : world :=
  {| w_sec := SecError;
     w_news := fun q => if bool_decide (q = py "new CFO")
                        then Some [report_article] else None;
     w_now := fun _ _ => 0%Z;
     w_today := py "November 03, 2026"; w_api := fun _ => ApiError;
     w_render := Some; w_smtp := SmtpOk |}.

(** A monitor as the entry point of the script builds it. *)
Definition operator (key : option str) : monitor :=
  CFOMonitor (py "to@example.com") (py "from@example.com") (py "secret") key.

(** The timestamp of an entry can be handled: there is none, or the
    [datetime] constructor accepts its fields. *)
Definition convertible (e : entry) : bool :=
  match e_published_parsed e with
  | None => true
  | Some pub_date =>
      match datetime pub_date with
      | Some _ => true
      | None => false
      end
  end.

(** The entry gets past the recency test: it has no timestamp, or one
    the constructor accepts that lies no more than two days before
    [now]. *)
Definition fresh (now : Z) (e : entry) : bool :=
  match e_published_parsed e with
  | None => true
  | Some pub_date =>
      match datetime pub_date with
      | Some entry_date => negb (too_old now entry_date)
      | None => false
      end
  end.

(** The loop of a news query over the entries [es], counted from [j]. *)
Definition entry_loop (w : world) (query : str) (j : nat) (es : list entry)
    : M outcome :=
  try_each_from j es (fun i e => news_entry (w_now w query i) e).

(** The state in which a news query that started in [st] examines the
    entry that follows the entries [pre] of its feed. *)
Definition examined_after (w : world) (query : str) (pre : list entry)
    (st : state) : state :=
  exec (entry_loop w query 0 pre)
       (exec (emit (EvSleep 500))
             (exec (emit (EvFeedParse (news_url query))) st)).

(** Calendar fields as a [struct_time], and the point in time they
    denote (0 when they are out of range). *)
Definition stamp (year month day hour minute second : Z) : struct_time :=
  {| tm_year := year; tm_mon := month; tm_mday := day;
     tm_hour := hour; tm_min := minute; tm_sec := second |}.

Definition instant (year month day hour minute second : Z) : Z :=
  default 0%Z (datetime (stamp year month day hour minute second)).

(** A news article with the given timestamp. *)
Definition dated_article (published : struct_time) : entry :=
  {| e_title := Some (py "Acme Corp appoints Jane Smith as CFO");
     e_summary := None; e_link := Some (py "https://news.example/acme");
     e_published := Some (py "Sat, 31 Oct 2026 09:00:00 GMT");
     e_published_parsed := Some published;
     e_source := Some (Some (py "Wire")) |}.

(** On November 3, 2026 at noon a query returns an article of October 31
    and the article without a timestamp. *)
Definition old_and_undated_world : world :=
  {| w_sec := SecError;
     w_news := fun q => if bool_decide (q = py "new CFO")
                        then Some [dated_article (stamp 2026 10 31 9 0 0);
                                   report_article]
                        else None;
     w_now := fun _ _ => instant 2026 11 3 12 0 0;
     w_today := py "November 03, 2026"; w_api := fun _ => ApiError;
     w_render := Some; w_smtp := SmtpOk |}.

(** A query returns an article stamped with the leap second 23:59:60,
    which [struct_time] can hold and [datetime] refuses, followed by the
    article without a timestamp. *)
Definition leap_second_world : world :=
  {| w_sec := SecError;
     w_news := fun q => if bool_decide (q = py "new CFO")
                        then Some [dated_article (stamp 2026 11 3 23 59 60);
                                   report_article]
                        else None;
     w_now := fun _ _ => instant 2026 11 4 12 0 0;
     w_today := py "November 04, 2026"; w_api := fun _ => ApiError;
     w_render := Some; w_smtp := SmtpOk |}.

(** What a finding of the filings source stores. *)
Definition sec_stored (w : world) (r : dict) : Prop :=
  exists entries e,
    w_sec w = SecResponse 200 entries /\ In e entries
    /\ r = sec_finding e
    /\ r !! "source"%string = Some (PStr (py "SEC EDGAR"))
    /\ r !! "summary"%string = Some (PStr (take 300 (default [] (e_summary e))))
    /\ length (as_str (item r "summary")) <= 300.

(** What a finding of the news source stores. *)
Definition news_stored (w : world) (r : dict) : Prop :=
  exists query entries e,
    In query search_queries /\ w_news w query = Some entries
    /\ In e (take 5 entries)
    /\ r = news_finding e
    /\ val_startswith (py "News: ") (item r "source") = true
    /\ r !! "summary"%string = Some (PStr [])
    /\ r !! "individual"%string
       = Some (of_option (_extract_individual_name (default [] (e_title e)) [])).

(** A filing whose summary has 420 characters, listed twice by the
    filings feed under one link. *)
Definition long_filing : entry :=
  {| e_title := Some (py "8-K - Acme Corp (0001234567) (Filer)");
     e_summary :=
       Some (py "Item 5.02: Acme Corp names Jane Smith as Chief Financial Officer. "
               ++ repeat "x"%char 354);
     e_link := Some (py "https://www.sec.gov/Archives/edgar/data/1234567/index.htm");
     e_published := Some (py "2026-11-03T09:00:00-05:00");
     e_published_parsed := None; e_source := None |}.

(** The filings feed lists that filing twice; one news query returns the
    article without a name. *)
Definition twice_listed_world : world :=
  {| w_sec := SecResponse 200 [long_filing; long_filing];
     w_news := fun q => if bool_decide (q = py "new CFO")
                        then Some [report_article] else None;
     w_now := fun _ _ => 0%Z;
     w_today := py "November 03, 2026"; w_api := fun _ => ApiError;
     w_render := Some; w_smtp := SmtpOk |}.

(** The links of a list of findings, in order. *)
Definition urls (rs : list dict) : list pyval :=
  map (fun r => dict_get r "url") rs.

(** The bodies of the messages handed to the mail relay. *)
Definition mail_bodies (tr : list event) : list str :=
  omap (fun e => match e with
                 | EvSmtpSend m => Some (msg_body m)
                 | _ => None
                 end) tr.

(** A pattern that yields no name on a text: it matches nowhere, or the
    capture of its first match is rejected by the filter. *)
Definition gives_no_name (text : str) (pattern : regex) : Prop :=
  forall m, search pattern text = Some m -> name_ok (strip (group1 m)) = false.

(** ** Further predicates used in the statements *)

(** The keyword test of [search_sec_filings] on one entry. *)
Definition mentions_cfo (e : entry) : bool :=
  existsb
    (fun keyword =>
       contains keyword
         (lower (default [] (e_title e) ++ py " " ++ default [] (e_summary e))))
    cfo_keywords.

(** What the filings source adds for an answer of the world. *)
Definition sec_findings (reply : sec_reply) : list dict :=
  match reply with
  | SecError => []
  | SecResponse status entries =>
      if (status =? 200)%Z then map sec_finding (List.filter mentions_cfo entries)
      else []
  end.

(** The feed addresses fetched, in order. *)
Definition feed_urls (tr : list event) : list str :=
  omap (fun e => match e with
                 | EvFeedParse url => Some url
                 | _ => None
                 end) tr.

(** The number of enrichment requests in a trace. *)
Definition api_posts (tr : list event) : nat :=
  length (List.filter is_api_post tr).

(** The mail events of a trace, in order. *)
Definition mail_events (tr : list event) : list event :=
  List.filter is_smtp tr.

(** [result.get('individual')] is true: a name was extracted. *)
Definition has_individual (result : dict) : bool :=
  truthy (dict_get result "individual").

(** A news article that carries the link of the filing above. *)
Definition echo_article : entry :=
  {| e_title := Some (py "Acme Corp names Jane Smith as CFO");
     e_summary := None;
     e_link := Some (py "https://www.sec.gov/Archives/edgar/data/1234567/index.htm");
     e_published := None; e_published_parsed := None;
     e_source := Some (Some (py "Wire")) |}.

(** The filing is listed once; two news queries return overlapping
    articles, one of them under the link of the filing. *)
Definition overlap_world : world :=
  {| w_sec := SecResponse 200 [long_filing];
     w_news := fun q =>
       if bool_decide (q = py "new CFO")
       then Some [echo_article; report_article; report_article]
       else if bool_decide (q = py "names CFO") then Some [report_article]
       else None;
     w_now := fun _ _ => 0%Z;
     w_today := py "November 03, 2026"; w_api := fun _ => ApiError;
     w_render := Some; w_smtp := SmtpOk |}.

(** The prompts of the two requests for a finding. *)
Definition company_prompt (w : world) (result : dict) : prompt :=
  CompanyPrompt (fmt (item result "company")) (w_today w).

Definition individual_prompt (w : world) (result : dict) : prompt :=
  IndividualPrompt (fmt (dict_get result "individual"))
                   (fmt (item result "company")) (w_today w).

(** The [n]-th request of the run is answered with a text that is not
    empty. *)
Definition usable (w : world) (n : nat) : bool :=
  truthy (of_option (reply_text (w_api w n))).

(** What the enrichment of one finding sends when [n] requests were made
    before it, and the tear sheets it adds. *)
Definition enrich_events (w : world) (result : dict) : list event :=
  [EvApiPost (company_prompt w result)]
    ++ (if has_individual result then [EvApiPost (individual_prompt w result)]
        else [])
    ++ [EvSleep 2000].

Definition enrich_sheets (w : world) (n : nat) (result : dict) : list dict :=
  (if usable w n then [company_sheet result (reply_text (w_api w n))] else [])
    ++ (if has_individual result && usable w (S n)
        then [individual_sheet result (reply_text (w_api w (S n)))]
        else []).

(** The number of requests the enrichment of a list of findings makes:
    one for each finding and one more for each finding with a name. *)
Definition requests (rs : list dict) : nat :=
  length rs + length (List.filter has_individual rs).

(** [s.endswith(suffix)] *)
Definition endswith (suffix s : str) : bool :=
  startswith (rev suffix) (rev s).

(** A tear sheet as the enrichment files it: a document text that is not
    empty, and a file name of at most 76 characters that ends in
    "_TearSheet.docx". *)
Definition sheet_ok (sheet : dict) : Prop :=
  truthy (item sheet "document") = true
  /\ length (as_str (item sheet "filename")) <= 76
  /\ endswith (py "_TearSheet.docx") (as_str (item sheet "filename")) = true.

(** The settings of a monitor: the two addresses, the password and the
    key. *)
Definition config (m : monitor) : str * str * str * option str :=
  (email_to m, email_from m, email_password m, anthropic_api_key m).

(** Operations that leave the settings as they are. *)
Definition keeps_config {A} (m : M A) : Prop :=
  forall st, config (self (snd (m st))) = config (self st).

(** Operations that add no mail event to the trace. *)
Definition sends_no_mail {A} (m : M A) : Prop :=
  forall st, mail_events (trace (snd (m st))) = mail_events (trace st).

(** The counts of the report: findings of the filings source, findings of
    the news source. *)
Definition num_sec (rs : list dict) : nat :=
  length (List.filter (fun r => val_is (item r "source") (py "SEC EDGAR")) rs).

Definition num_news (rs : list dict) : nat :=
  length (List.filter (fun r => val_startswith (py "News") (item r "source")) rs).

(** The keys of a finding that hold a string. *)
Definition text_keys : list string :=
  ["source"; "company"; "title"; "summary"; "url"; "date"]%string.

(** Two findings, the first with a name; the first request is answered
    with a text, the second fails and the third is answered with an empty
    content list. *)
Definition text_block (s : str) : block :=
  {| b_type := Some (py "text"); b_text := Some s |}.

Definition two_findings_world : world :=
  {| w_sec := SecError;
     w_news := fun q => if bool_decide (q = py "new CFO")
                        then Some [dated_article (stamp 2026 11 2 9 0 0);
                                   report_article]
                        else None;
     w_now := fun _ _ => instant 2026 11 3 12 0 0;
     w_today := py "November 03, 2026";
     w_api := fun n =>
       match n with
       | 0 => ApiResponse 200 (Some [text_block (py "Acme Corp makes anvils.")])
       | 1 => ApiError
       | _ => ApiResponse 200 (Some [])
       end;
     w_render := Some; w_smtp := SmtpOk |}.

(** The mail events a run can leave, for the monitor [m] it ends with:
    none without findings; otherwise a connection, then a login with the
    sender's address and password unless connecting failed, then one
    message unless the login failed. *)
Inductive mail_outcome (w : world) (m : monitor) : list event -> Prop :=
| mail_none :
    results m = [] -> mail_outcome w m []
| mail_connect_failed :
    results m <> [] -> w_smtp w = SmtpConnectError ->
    mail_outcome w m [EvSmtpConnect]
| mail_login_failed :
    results m <> [] -> w_smtp w = SmtpLoginError ->
    mail_outcome w m
      [EvSmtpConnect; EvSmtpLogin (email_from m) (email_password m)]
| mail_submitted msg :
    results m <> [] ->
    w_smtp w = SmtpSendError \/ w_smtp w = SmtpOk ->
    msg_from msg = email_from m ->
    msg_to msg = email_to m ->
    msg_body msg = _create_email_body (w_today w) m ->
    mail_outcome w m
      [EvSmtpConnect; EvSmtpLogin (email_from m) (email_password m);
       EvSmtpSend msg].

(** A string with no whitespace at either end. *)
Definition trimmed (s : str) : Prop :=
  starts_clean s /\ (forall c, last s = Some c -> isspace c = false).

(** The strings a pattern denotes, groups ignored. *)
Inductive matches : regex -> str -> Prop :=
| matches_eps : matches Eps []
| matches_chr c : matches (Chr c) [c]
| matches_cls (p : ascii -> bool) c : p c = true -> matches (Cls p) [c]
| matches_seq r1 r2 u v :
    matches r1 u -> matches r2 v -> matches (Seq r1 r2) (u ++ v)
| matches_alt_l r1 r2 u : matches r1 u -> matches (Alt r1 r2) u
| matches_alt_r r1 r2 u : matches r2 u -> matches (Alt r1 r2) u
| matches_plus_one r u : matches r u -> matches (Plus r) u
| matches_plus_more r u v :
    matches r u -> matches (Plus r) v -> matches (Plus r) (u ++ v)
| matches_group r u : matches r u -> matches (Group r) u.

(** Patterns without a group. *)
Fixpoint group_free (r : regex) : bool :=
  match r with
  | Eps | Chr _ | Cls _ => true
  | Seq r1 r2 | Alt r1 r2 => group_free r1 && group_free r2
  | Plus r1 => group_free r1
  | Group _ => false
  end.

(** A letter of a name, or the whitespace between its words. *)
Definition name_char (c : ascii) : bool := is_AZ c || is_az c || isspace c.

(** Each of the three patterns captures a string of [name_re] that
    stands in the input. *)
Definition captures_name (pattern : regex) : Prop :=
  forall s g,
    match_here pattern s = Some g ->
    exists pre u post,
      s = pre ++ u ++ post /\ matches name_re u /\ g = Some u.

(** * Properties *)

(** ** Character classes and stripping *)

Lemma space_is_space : isspace " " = true.
Proof. reflexivity. Qed.

Lemma isspace_not_word c : isspace c = true -> is_word c = false.
Proof.
  destruct c as [[] [] [] [] [] [] [] []]; vm_compute; congruence.
Qed.

Lemma lstrip_Forall (P : ascii -> Prop) s : Forall P s -> Forall P (lstrip s).
Proof.
  induction 1 as [|c s Hc Hs IH]; simpl; [constructor|].
  destruct (isspace c); [exact IH | constructor; assumption].
Qed.

Lemma rstrip_Forall (P : ascii -> Prop) s : Forall P s -> Forall P (rstrip s).
Proof.
  intros H. unfold rstrip.
  apply Forall_rev, lstrip_Forall, Forall_rev, H.
Qed.

Lemma strip_Forall (P : ascii -> Prop) s : Forall P s -> Forall P (strip s).
Proof. intros H. apply rstrip_Forall, lstrip_Forall, H. Qed.

Lemma rstrip_snoc s c :
  rstrip (s ++ [c]) = if isspace c then rstrip s else s ++ [c].
Proof.
  unfold rstrip. rewrite rev_unit. simpl.
  destruct (isspace c); [reflexivity|].
  simpl. rewrite rev_involutive. reflexivity.
Qed.

Lemma rstrip_cons c s :
  isspace c = false -> rstrip (c :: s) = c :: rstrip s.
Proof.
  intros Hc. induction s as [|d s IH] using rev_ind.
  - unfold rstrip. simpl. rewrite Hc. reflexivity.
  - change (c :: s ++ [d]) with ((c :: s) ++ [d]).
    rewrite !rstrip_snoc. destruct (isspace d); [exact IH | reflexivity].
Qed.

Lemma rstrip_length s : length (rstrip s) <= length s.
Proof.
  induction s as [|d s IH] using rev_ind; [reflexivity|].
  rewrite rstrip_snoc, length_app. simpl.
  destruct (isspace d); [lia | rewrite length_app; simpl; lia].
Qed.

Lemma rstrip_no_space s : Forall (fun c => isspace c = false) s -> rstrip s = s.
Proof.
  induction s as [|d s IH] using rev_ind; [reflexivity|].
  intros H. apply Forall_app in H as [_ Hd].
  rewrite rstrip_snoc. inversion Hd as [|? ? Hd' _]; subst. rewrite Hd'.
  reflexivity.
Qed.

Lemma lstrip_starts_clean s : starts_clean (lstrip s).
Proof.
  induction s as [|c s IH]; simpl; [exact I|].
  destruct (isspace c) eqn:E; [exact IH | exact E].
Qed.

Lemma strip_starts_clean s : starts_clean (strip s).
Proof.
  unfold strip. pose proof (lstrip_starts_clean s) as H.
  destruct (lstrip s) as [|c t]; [exact I|].
  simpl in H. rewrite rstrip_cons by exact H. exact H.
Qed.

Lemma lstrip_clean s : starts_clean s -> lstrip s = s.
Proof. destruct s as [|c s]; simpl; [reflexivity|]. intros ->. reflexivity. Qed.

(** [rstrip] leaves a string alone exactly when it does not end in
    whitespace. *)
Lemma rstrip_fixed_iff s :
  rstrip s = s <-> (forall c, last s = Some c -> isspace c = false).
Proof.
  induction s as [|d s _] using rev_ind.
  - split; [intros _ c Hc; discriminate | reflexivity].
  - rewrite rstrip_snoc, last_snoc. split.
    + intros H c [= <-]. destruct (isspace d) eqn:E; [|reflexivity].
      pose proof (rstrip_length s) as Hl.
      apply (f_equal length) in H. rewrite length_app in H. simpl in H. lia.
    + intros H. rewrite (H d eq_refl). reflexivity.
Qed.

(** ** The file-name sanitizer *)

Lemma filter_kept s : Forall (fun c => kept_char c = true) (List.filter kept_char s).
Proof.
  apply List.Forall_forall. intros c Hc. apply List.filter_In in Hc. tauto.
Qed.

Lemma filter_kept_id s :
  Forall (fun c => kept_char c = true) s -> List.filter kept_char s = s.
Proof.
  induction 1 as [|c s Hc _ IH]; simpl; [reflexivity|].
  rewrite Hc, IH. reflexivity.
Qed.

Lemma replace_clean s :
  Forall (fun c => kept_char c = true) s -> Forall clean_char (replace " " "_" s).
Proof.
  induction 1 as [|c s Hc _ IH]; simpl; constructor; [|exact IH].
  destruct (Ascii.eqb_spec c " ") as [->|Hne]; split;
    first [assumption | reflexivity | discriminate].
Qed.

Lemma replace_clean_id s : Forall clean_char s -> replace " " "_" s = s.
Proof.
  induction 1 as [|c s [_ Hc] _ IH]; simpl; [reflexivity|].
  destruct (Ascii.eqb_spec c " ") as [->|_]; [contradiction|].
  f_equal. exact IH.
Qed.

Lemma replace_starts_clean s : starts_clean s -> starts_clean (replace " " "_" s).
Proof.
  destruct s as [|c s]; simpl; [trivial|]. intros Hc.
  destruct (Ascii.eqb_spec c " ") as [->|_]; [discriminate Hc | exact Hc].
Qed.

Lemma take_starts_clean n s : starts_clean s -> starts_clean (take (S n) s).
Proof. destruct s; simpl; trivial. Qed.

Lemma sanitize_clean s : Forall clean_char (_sanitize_filename s).
Proof.
  unfold _sanitize_filename.
  apply Forall_take, replace_clean, strip_Forall, filter_kept.
Qed.

Lemma sanitize_length s : length (_sanitize_filename s) <= 50.
Proof. unfold _sanitize_filename. rewrite length_take. lia. Qed.

Lemma sanitize_starts_clean s : starts_clean (_sanitize_filename s).
Proof.
  unfold _sanitize_filename.
  apply (take_starts_clean 49), replace_starts_clean, strip_starts_clean.
Qed.

(** Sanitizing a sanitized name strips the whitespace the cut at 50
    characters may have left at its end, and does nothing else. *)
Lemma sanitize_twice s :
  _sanitize_filename (_sanitize_filename s) = rstrip (_sanitize_filename s).
Proof.
  pose proof (sanitize_clean s) as Hc.
  pose proof (sanitize_length s) as Hl.
  pose proof (sanitize_starts_clean s) as Hs.
  set (out := _sanitize_filename s) in *.
  unfold _sanitize_filename.
  rewrite filter_kept_id by (eapply Forall_impl; [exact Hc | intros c H; apply H]).
  unfold strip. rewrite (lstrip_clean out Hs).
  rewrite replace_clean_id by (apply rstrip_Forall, Hc).
  apply take_ge. pose proof (rstrip_length out). lia.
Qed.

Lemma clean_char_cases c :
  clean_char c ->
  is_word c = true \/ c = "-"%char \/ (isspace c = true /\ c <> " "%char).
Proof.
  intros [Hk Hne]. unfold kept_char in Hk.
  apply orb_true_iff in Hk as [Hk|Hk]; [apply orb_true_iff in Hk as [Hk|Hk]|].
  - left. exact Hk.
  - right. right. split; assumption.
  - right. left. apply Ascii.eqb_eq, Hk.
Qed.

(** When the only whitespace of the input is the space, no whitespace
    survives. *)
Lemma sanitize_spaces_only s :
  Forall (fun c => isspace c = true -> c = " "%char) s ->
  Forall (fun c => isspace c = false) (_sanitize_filename s).
Proof.
  intros H. unfold _sanitize_filename. apply Forall_take.
  assert (Hf : Forall (fun c => isspace c = true -> c = " "%char)
                 (strip (List.filter kept_char s))).
  { apply strip_Forall. apply List.Forall_forall. intros c Hc.
    apply List.filter_In in Hc as [Hc _].
    rewrite List.Forall_forall in H. apply H, Hc. }
  induction Hf as [|c t Hc _ IH]; simpl; constructor; [|exact IH].
  destruct (Ascii.eqb_spec c " ") as [->|Hne]; [reflexivity|].
  destruct (isspace c) eqn:E; [|reflexivity]. elim Hne. apply Hc. reflexivity.
Qed.

(** C4, as stated, fails: on 49 letters followed by a tab and a letter the
    sanitizer returns the letters and the tab, a character that is
    neither a word character nor a hyphen, and a second pass removes the
    tab, so the sanitizer is not idempotent there. *)
Lemma C4_counterexample :
  _sanitize_filename long_tabbed = repeat "a"%char 49 ++ [tab]
  /\ _sanitize_filename (_sanitize_filename long_tabbed) = repeat "a"%char 49
  /\ _sanitize_filename (_sanitize_filename long_tabbed)
       <> _sanitize_filename long_tabbed
  /\ In tab (_sanitize_filename long_tabbed)
  /\ is_word tab = false /\ tab <> "-"%char.
Proof.
  repeat split; try (vm_compute; congruence).
  vm_compute. tauto.
Qed.

(** C4 (amended): for every input string the sanitized name has at most
    50 characters, and each of them is a word character (underscores
    included), a hyphen, or a whitespace character other than the space;
    a second pass only strips trailing whitespace, so the sanitizer is
    idempotent exactly when its output does not end in whitespace; when
    the input has no whitespace other than spaces the output holds only
    word characters and hyphens and the sanitizer is idempotent. *)
Theorem C4_sanitize_filename :
  (forall s, length (_sanitize_filename s) <= 50)
  /\ (forall s,
        Forall (fun c => is_word c = true \/ c = "-"%char
                         \/ (isspace c = true /\ c <> " "%char))
               (_sanitize_filename s))
  /\ (forall s,
        _sanitize_filename (_sanitize_filename s) = _sanitize_filename s
        <-> (forall c, last (_sanitize_filename s) = Some c -> isspace c = false))
  /\ (forall s,
        Forall (fun c => isspace c = true -> c = " "%char) s ->
        _sanitize_filename (_sanitize_filename s) = _sanitize_filename s
        /\ Forall (fun c => is_word c = true \/ c = "-"%char)
                  (_sanitize_filename s)).
Proof.
  split; [exact sanitize_length|].
  split.
  { intros s. eapply Forall_impl; [apply sanitize_clean|].
    intros c. apply clean_char_cases. }
  split.
  { intros s. rewrite sanitize_twice. apply rstrip_fixed_iff. }
  intros s Hs. pose proof (sanitize_spaces_only s Hs) as Hn. split.
  - rewrite sanitize_twice. apply rstrip_no_space, Hn.
  - pose proof (sanitize_clean s) as Hc.
    rewrite List.Forall_forall in *. intros c Hin.
    destruct (clean_char_cases c (Hc c Hin)) as [H|[H|[H _]]]; auto.
    rewrite (Hn c Hin) in H. discriminate.
Qed.

(** The amended statement at a company name with punctuation. *)
Lemma C4_sanitize_filename_witness :
  Forall (fun c => isspace c = true -> c = " "%char) (py "Acme, Inc. (NYSE: ACM)")
  /\ _sanitize_filename (py "Acme, Inc. (NYSE: ACM)") = py "Acme_Inc_NYSE_ACM"
  /\ _sanitize_filename (_sanitize_filename (py "Acme, Inc. (NYSE: ACM)"))
     = _sanitize_filename (py "Acme, Inc. (NYSE: ACM)").
Proof.
  assert (H : Forall (fun c => isspace c = true -> c = " "%char)
                (py "Acme, Inc. (NYSE: ACM)")).
  { apply List.Forall_forall. intros c Hc. vm_compute in Hc.
    intuition (subst; first [reflexivity | discriminate]). }
  split; [exact H|]. split; [reflexivity|].
  exact (proj1 (proj2 (proj2 (proj2 C4_sanitize_filename)) _ H)).
Defined.

(** ** The matcher *)

Section MatcherFacts.
Context {A : Type}.

(** The matcher only looks at what its continuation returns. *)
Lemma bt_ext (r : regex) : forall s g (k k' : @cont A),
  (forall s1 g1, k s1 g1 = k' s1 g1) -> bt r s g k = bt r s g k'.
Proof.
  induction r as [|c|p|r1 IH1 r2 IH2|r1 IH1 r2 IH2|r1 IH1|r1 IH1];
    intros s g k k' Hk; simpl.
  - apply Hk.
  - destruct s as [|x s]; [reflexivity|]. destruct (Ascii.eqb x c); auto.
  - destruct s as [|x s]; [reflexivity|]. destruct (p x); auto.
  - apply IH1. intros s1 g1. apply IH2, Hk.
  - rewrite (IH1 s g k k' Hk), (IH2 s g k k' Hk). reflexivity.
  - assert (Hrep : forall n s0 g0,
               rep (bt r1) n s0 g0 k = rep (bt r1) n s0 g0 k').
    { induction n as [|n IHn]; intros s0 g0; simpl; [reflexivity|].
      apply IH1. intros s1 g1. rewrite Hk.
      destruct (length s1 <? length s0)%nat; [rewrite IHn|]; reflexivity. }
    exact (Hrep (S (length s)) s g).
  - apply IH1. intros s1 g1. apply Hk.
Qed.

(** The iteration counter of a repetition is never the reason a match
    fails: any two counters above the length of the input give the same
    result. *)
Lemma rep_fuel (r : regex) (k : @cont A) : forall n m s g,
  length s < n -> length s < m ->
  rep (bt r) n s g k = rep (bt r) m s g k.
Proof.
  induction n as [|n IHn]; intros m s g Hn Hm; [lia|].
  destruct m as [|m]; [lia|]. simpl.
  apply bt_ext. intros s1 g1.
  destruct (length s1 <? length s)%nat eqn:E; [|reflexivity].
  apply Nat.ltb_lt in E. rewrite (IHn m) by lia. reflexivity.
Qed.
End MatcherFacts.

(** [search] returns the leftmost position at which the pattern
    matches, with the match the backtracking order finds there. *)
Lemma search_from_leftmost r : forall s i m,
  search_from i r s = Some m ->
  i <= m_start m
  /\ match_here r (drop (m_start m - i) s) = Some (m_group1 m)
  /\ forall j, j < m_start m - i -> match_here r (drop j s) = None.
Proof.
  induction s as [|c s IH]; intros i m; simpl.
  - destruct (match_here r []) as [g|] eqn:E; [|discriminate].
    intros [= <-]. simpl. rewrite Nat.sub_diag. simpl.
    repeat split; [lia | exact E | intros j Hj; lia].
  - destruct (match_here r (c :: s)) as [g|] eqn:E.
    + intros [= <-]. simpl. rewrite Nat.sub_diag. simpl.
      repeat split; [lia | exact E | intros j Hj; lia].
    + intros H. apply IH in H as (Hi & Hm & Hj).
      replace (m_start m - i) with (S (m_start m - S i)) by lia. simpl.
      repeat split; [lia | exact Hm |].
      intros [|j] Hlt; simpl; [exact E | apply Hj; lia].
Qed.

Lemma search_leftmost r s m :
  search r s = Some m ->
  match_here r (drop (m_start m) s) = Some (m_group1 m)
  /\ forall j, j < m_start m -> match_here r (drop j s) = None.
Proof.
  intros H. apply search_from_leftmost in H as (_ & Hm & Hj).
  rewrite Nat.sub_0_r in *. split; assumption.
Qed.

(** ** Name extraction *)

(** A returned name has passed the filter: two words or more, and not one
    of the two listed phrases. *)
Lemma scan_patterns_ok text : forall ps name,
  scan_patterns text ps = Some name -> name_ok name = true.
Proof.
  induction ps as [|p ps IH]; intros name; simpl; [discriminate|].
  destruct (search p text) as [m|]; [|apply IH].
  destruct (name_ok (strip (group1 m))) eqn:E; [|apply IH].
  intros [= <-]. exact E.
Qed.

Lemma extract_individual_name_ok title summary name :
  _extract_individual_name title summary = Some name -> name_ok name = true.
Proof. apply scan_patterns_ok. Qed.

(** C2: on the title "Acme names Chief Financial Officer" with an empty
    summary the first pattern captures the three words "Chief Financial
    Officer"; the capture has more than one word and is neither of the two
    listed phrases, so it is returned as the individual's name and the
    result is not absent. *)
Theorem C2_title_captured_as_name :
  search pattern1 (py "Acme names Chief Financial Officer" ++ py " " ++ [])
    = Some {| m_start := 5; m_group1 := Some (py "Chief Financial Officer") |}
  /\ name_ok (py "Chief Financial Officer") = true
  /\ _extract_individual_name (py "Acme names Chief Financial Officer") []
     = Some (py "Chief Financial Officer").
Proof. repeat split; vm_compute; reflexivity. Qed.

Lemma scan_patterns_skip text pre : forall rest,
  Forall (gives_no_name text) pre ->
  scan_patterns text (pre ++ rest) = scan_patterns text rest.
Proof.
  induction pre as [|p pre IH]; intros rest H; [reflexivity|].
  inversion H as [|? ? Hp Hpre]; subst. simpl.
  destruct (search p text) as [m|] eqn:E; [|apply IH, Hpre].
  rewrite (Hp m E). apply IH, Hpre.
Qed.

Lemma scan_patterns_hit text pattern post m :
  search pattern text = Some m ->
  name_ok (strip (group1 m)) = true ->
  scan_patterns text (pattern :: post) = Some (strip (group1 m)).
Proof. intros Hm Hok. simpl. rewrite Hm, Hok. reflexivity. Qed.

(** C8, as stated, fails: the text "Acme names Chief Financial; Bob Jones
    joins; Zed hires Jane Smith" contains a match of pattern 1 at position
    49 whose capture "Jane Smith" passes the filter, yet the first match of
    pattern 1, at position 5, captures the listed phrase "Chief Financial",
    pattern 1 is given up and the result is the "Bob Jones" of pattern
    2. *)
Lemma C8_counterexample :
  match_here pattern1
    (drop 49 (py "Acme names Chief Financial; Bob Jones joins; Zed hires Jane Smith"
                ++ py " " ++ []))
  = Some (Some (py "Jane Smith"))
  /\ name_ok (strip (py "Jane Smith")) = true
  /\ search pattern1
       (py "Acme names Chief Financial; Bob Jones joins; Zed hires Jane Smith"
          ++ py " " ++ [])
     = Some {| m_start := 5; m_group1 := Some (py "Chief Financial") |}
  /\ name_ok (strip (py "Chief Financial")) = false
  /\ _extract_individual_name
       (py "Acme names Chief Financial; Bob Jones joins; Zed hires Jane Smith") []
     = Some (py "Bob Jones").
Proof. repeat split; vm_compute; reflexivity. Qed.

(** C8 (amended): of each pattern only the first, leftmost, match in the
    concatenated text is examined.  When the capture of the first match of
    pattern 1 passes the filter it is the result, whatever patterns 2 and
    3 match.  In general the result is the capture of the first match of
    the first pattern, in the order 1, 2, 3, whose first match has a
    capture that passes the filter: a pattern that matches nowhere, or
    whose first match has a rejected capture, is given up for the next
    one, later matches of it not being looked at; when all three are
    given up the result is absent.  "Acme Corp appoints Jane Smith as
    CFO" gives "Jane Smith", and so does "Bob Jones named; Acme hires Jane
    Smith", where pattern 2 captures "Bob Jones". *)
Theorem C8_pattern_priority :
  (forall title summary m,
      search pattern1 (title ++ py " " ++ summary) = Some m ->
      name_ok (strip (group1 m)) = true ->
      _extract_individual_name title summary = Some (strip (group1 m)))
  /\ (forall title summary pre pattern post m,
        patterns = pre ++ pattern :: post ->
        Forall (gives_no_name (title ++ py " " ++ summary)) pre ->
        search pattern (title ++ py " " ++ summary) = Some m ->
        name_ok (strip (group1 m)) = true ->
        _extract_individual_name title summary = Some (strip (group1 m)))
  /\ (forall title summary,
        Forall (gives_no_name (title ++ py " " ++ summary)) patterns ->
        _extract_individual_name title summary = None)
  /\ (forall pattern text m,
        search pattern text = Some m ->
        match_here pattern (drop (m_start m) text) = Some (m_group1 m)
        /\ forall j, j < m_start m -> match_here pattern (drop j text) = None)
  /\ _extract_individual_name (py "Acme Corp appoints Jane Smith as CFO") []
     = Some (py "Jane Smith")
  /\ search pattern2 (py "Bob Jones named; Acme hires Jane Smith" ++ py " " ++ [])
     = Some {| m_start := 0; m_group1 := Some (py "Bob Jones") |}
  /\ _extract_individual_name (py "Bob Jones named; Acme hires Jane Smith") []
     = Some (py "Jane Smith").
Proof.
  split.
  { intros title summary m Hm Hok.
    unfold _extract_individual_name, patterns.
    apply scan_patterns_hit; assumption. }
  split.
  { intros title summary pre pattern post m Hsplit Hpre Hm Hok.
    unfold _extract_individual_name. rewrite Hsplit.
    rewrite scan_patterns_skip by exact Hpre.
    apply scan_patterns_hit; assumption. }
  split.
  { intros title summary Hall. unfold _extract_individual_name.
    rewrite <- (app_nil_r patterns).
    rewrite scan_patterns_skip by exact Hall. reflexivity. }
  split; [intros pattern text m; apply search_leftmost|].
  repeat split; vm_compute; reflexivity.
Qed.

(** The amended statement at the text of the counterexample: pattern 1 is
    given up on its first capture "Chief Financial" and pattern 2 gives
    "Bob Jones". *)
Lemma C8_pattern_priority_witness :
  patterns = [pattern1] ++ pattern2 :: [pattern3]
  /\ Forall (gives_no_name
               (py "Acme names Chief Financial; Bob Jones joins; Zed hires Jane Smith"
                  ++ py " " ++ []))
            [pattern1]
  /\ search pattern2
       (py "Acme names Chief Financial; Bob Jones joins; Zed hires Jane Smith"
          ++ py " " ++ [])
     = Some {| m_start := 28; m_group1 := Some (py "Bob Jones") |}
  /\ name_ok (strip (py "Bob Jones")) = true
  /\ _extract_individual_name
       (py "Acme names Chief Financial; Bob Jones joins; Zed hires Jane Smith") []
     = Some (py "Bob Jones").
Proof.
  assert (H1 : patterns = [pattern1] ++ pattern2 :: [pattern3]) by reflexivity.
  assert (H2 : Forall (gives_no_name
                 (py "Acme names Chief Financial; Bob Jones joins; Zed hires Jane Smith"
                    ++ py " " ++ []))
                 [pattern1]).
  { constructor; [|constructor]. intros m Hm.
    assert (Hs : search pattern1
                   (py "Acme names Chief Financial; Bob Jones joins; Zed hires Jane Smith"
                      ++ py " " ++ [])
                 = Some {| m_start := 5; m_group1 := Some (py "Chief Financial") |})
      by (vm_compute; reflexivity).
    rewrite Hs in Hm. injection Hm as <-. reflexivity. }
  assert (H3 : search pattern2
                 (py "Acme names Chief Financial; Bob Jones joins; Zed hires Jane Smith"
                    ++ py " " ++ [])
               = Some {| m_start := 28; m_group1 := Some (py "Bob Jones") |})
    by (vm_compute; reflexivity).
  assert (H4 : name_ok (strip (py "Bob Jones")) = true) by reflexivity.
  split; [exact H1|]. split; [exact H2|]. split; [exact H3|].
  split; [exact H4|].
  exact (proj1 (proj2 C8_pattern_priority) _ [] _ _ _ _ H1 H2 H3 H4).
Defined.

(** ** Company extraction *)

Lemma startswith_app p : forall s,
  startswith p s = true -> exists rest, s = p ++ rest.
Proof.
  induction p as [|a p IH]; intros s H; simpl in *; [exists s; reflexivity|].
  destruct s as [|b s]; [discriminate|].
  apply andb_true_iff in H as [Hab Hp].
  apply Ascii.eqb_eq in Hab as ->.
  destruct (IH s Hp) as [rest ->]. exists rest. reflexivity.
Qed.

(** [split_head] is the text before the first occurrence of the
    separator. *)
Lemma split_head_spec sep : forall s,
  contains sep s = true -> exists rest, s = split_head sep s ++ sep ++ rest.
Proof.
  induction s as [|c s IH]; simpl; intros H.
  - rewrite orb_false_r in H. destruct sep; [|discriminate].
    exists []. reflexivity.
  - destruct (startswith sep (c :: s)) eqn:E.
    + apply startswith_app in E as [rest E]. exists rest. exact E.
    + simpl in H. destruct (IH H) as [rest Hr]. exists rest.
      simpl. f_equal. exact Hr.
Qed.

Lemma scan_keywords_skip title pre : forall rest,
  Forall (passed_over title) pre ->
  scan_keywords title (pre ++ rest) = scan_keywords title rest.
Proof.
  induction pre as [|k pre IH]; intros rest H; [reflexivity|].
  inversion H as [|? ? Hk Hpre]; subst. simpl.
  destruct (contains k (lower title)) eqn:E; [|apply IH, Hpre].
  rewrite (Hk E). apply IH, Hpre.
Qed.

Lemma scan_keywords_hit title keyword post :
  contains keyword (lower title) = true ->
  split_head keyword (lower title) <> [] ->
  scan_keywords title (keyword :: post)
  = titlecase (strip (split_head keyword (lower title))).
Proof.
  intros Hc Hne. simpl. rewrite Hc.
  destruct (split_head keyword (lower title)); [contradiction | reflexivity].
Qed.

(** C9, as stated, fails: the title "Names new CFO" contains the verb
    "names", the text before the verb, trimmed and title-cased, is the
    empty string, and the result is the sentinel; no verb found in the
    title has the result as its preceding text. *)
Lemma C9_counterexample :
  contains (py "names") (lower (py "Names new CFO")) = true
  /\ titlecase (strip (split_head (py "names") (lower (py "Names new CFO")))) = []
  /\ _extract_company (py "Names new CFO") = py "Company in article"
  /\ forallb (fun kw =>
        negb (contains kw (lower (py "Names new CFO")))
        || negb (str_eqb (_extract_company (py "Names new CFO"))
                   (titlecase (strip (split_head kw (lower (py "Names new CFO")))))))
       company_keywords = true.
Proof. repeat split; vm_compute; reflexivity. Qed.

(** C9 (amended): a title containing none of the five verbs
    (case-insensitively) gives the sentinel; the verbs are tried in the
    order appoints, hires, names, announces, welcomes, a verb with no text
    before its first occurrence in the lower-cased title is passed over,
    and the first verb found with text before it gives that text, trimmed
    and title-cased; when every verb found stands at the very start the
    result is the sentinel; "XYZ Files Report" gives the sentinel. *)
Theorem C9_extract_company :
  (forall title,
      Forall (fun kw => contains kw (lower title) = false) company_keywords ->
      _extract_company title = company_sentinel)
  /\ (forall title pre keyword post,
        company_keywords = pre ++ keyword :: post ->
        Forall (passed_over title) pre ->
        contains keyword (lower title) = true ->
        split_head keyword (lower title) <> [] ->
        _extract_company title
        = titlecase (strip (split_head keyword (lower title))))
  /\ (forall title,
        Forall (passed_over title) company_keywords ->
        _extract_company title = company_sentinel)
  /\ _extract_company (py "XYZ Files Report") = company_sentinel.
Proof.
  assert (Hall : forall title,
             Forall (passed_over title) company_keywords ->
             _extract_company title = company_sentinel).
  { intros title H. unfold _extract_company.
    rewrite <- (app_nil_r company_keywords).
    rewrite scan_keywords_skip by exact H. reflexivity. }
  split.
  { intros title H. apply Hall. eapply Forall_impl; [exact H|].
    intros kw Hkw Hc. simpl in Hkw. congruence. }
  split.
  { intros title pre keyword post Hsplit Hpre Hc Hne.
    unfold _extract_company. rewrite Hsplit.
    rewrite scan_keywords_skip by exact Hpre.
    apply scan_keywords_hit; assumption. }
  split; [exact Hall|].
  vm_compute. reflexivity.
Qed.

(** The amended statement on "Acme names Bob, appoints Jim": "appoints"
    comes first in the list and decides, although "names" stands earlier
    in the title. *)
Lemma C9_extract_company_witness :
  company_keywords = [] ++ py "appoints" :: skipn 1 company_keywords
  /\ contains (py "appoints") (lower (py "Acme names Bob, appoints Jim")) = true
  /\ split_head (py "appoints") (lower (py "Acme names Bob, appoints Jim")) <> []
  /\ _extract_company (py "Acme names Bob, appoints Jim") = py "Acme Names Bob,".
Proof.
  assert (H1 : company_keywords = [] ++ py "appoints" :: skipn 1 company_keywords)
    by reflexivity.
  assert (H2 : contains (py "appoints")
                 (lower (py "Acme names Bob, appoints Jim")) = true)
    by reflexivity.
  assert (H3 : split_head (py "appoints")
                 (lower (py "Acme names Bob, appoints Jim")) <> [])
    by (vm_compute; discriminate).
  split; [exact H1|]. split; [exact H2|]. split; [exact H3|].
  exact (proj1 (proj2 C9_extract_company) _ [] _ _ H1 (List.Forall_nil _) H2 H3).
Defined.

(** ** Running the operations *)

Lemma exec_ret {A} (a : A) st : exec (ret a) st = st.
Proof. reflexivity. Qed.

Lemma exec_bind {A B} (m : M A) (f : A -> M B) st :
  exec (bind m f) st = exec (f (fst (m st))) (snd (m st)).
Proof. unfold exec, bind. destruct (m st). reflexivity. Qed.

Lemma exec_seq {A B} (m : M A) (k : M B) st :
  exec (m ;; k) st = exec k (exec m st).
Proof. apply exec_bind. Qed.

Lemma exec_get_self {B} (f : monitor -> M B) st :
  exec (m <- get_self ;; f m) st = exec (f (self st)) st.
Proof. reflexivity. Qed.

Lemma exec_when_true m st : exec (when true m) st = exec m st.
Proof. reflexivity. Qed.

Lemma exec_when_false m st : exec (when false m) st = st.
Proof. reflexivity. Qed.

(** A property kept by the body of a loop is kept by the loop. *)
Lemma for_each_inv {A} (I : state -> Prop) (body : A -> M unit) :
  forall xs,
  (forall x st, In x xs -> I st -> I (exec (body x) st)) ->
  forall st, I st -> I (exec (for_each xs body) st).
Proof.
  induction xs as [|x xs IH]; intros Hbody st Hst; [exact Hst|].
  simpl. rewrite exec_seq. apply IH.
  - intros y st' Hy. apply Hbody. right. exact Hy.
  - apply Hbody; [left; reflexivity | exact Hst].
Qed.

Lemma try_each_from_inv {A} (I : state -> Prop) (body : nat -> A -> M outcome) :
  forall xs j,
  (forall i x st, In x xs -> I st -> I (exec (body i x) st)) ->
  forall st, I st -> I (exec (try_each_from j xs body) st).
Proof.
  induction xs as [|x xs IH]; intros j Hbody st Hst; [exact Hst|].
  simpl. rewrite exec_bind.
  assert (Hx : I (snd (body j x st)))
    by (apply (Hbody j x st); [left; reflexivity | exact Hst]).
  destruct (fst (body j x st)).
  - apply IH; [|exact Hx].
    intros i y st' Hy. apply Hbody. right. exact Hy.
  - exact Hx.
Qed.

(** The body of the news loop, case by case. *)
Lemma keep_entry_run e st :
  keep_entry e st
  = (Completed,
     if url_seen (default [] (e_link e)) (results (self st)) then st
     else exec (append_result (news_finding e)) st).
Proof.
  unfold keep_entry, bind, get_self.
  destruct (url_seen _ _); reflexivity.
Qed.

Lemma news_entry_fresh_run now e st :
  fresh now e = true -> news_entry now e st = keep_entry e st.
Proof.
  unfold fresh, news_entry.
  destruct (e_published_parsed e) as [pub_date|]; [|reflexivity].
  destruct (datetime pub_date) as [entry_date|]; [|discriminate].
  destruct (too_old now entry_date); [discriminate | reflexivity].
Qed.

Lemma news_entry_fresh now e st :
  fresh now e = true ->
  exec (news_entry now e) st
  = if url_seen (default [] (e_link e)) (results (self st)) then st
    else exec (append_result (news_finding e)) st.
Proof.
  intros H. unfold exec. rewrite (news_entry_fresh_run now e st H).
  rewrite keep_entry_run. reflexivity.
Qed.

Lemma news_entry_not_fresh now e st :
  fresh now e = false -> exec (news_entry now e) st = st.
Proof.
  unfold fresh, news_entry, exec.
  destruct (e_published_parsed e) as [pub_date|]; [|discriminate].
  destruct (datetime pub_date) as [entry_date|]; [|reflexivity].
  destruct (too_old now entry_date); [reflexivity | discriminate].
Qed.

Lemma news_entry_outcome now e st :
  fst (news_entry now e st) = if convertible e then Completed else Raised.
Proof.
  unfold convertible, news_entry.
  destruct (e_published_parsed e) as [pub_date|];
    [|rewrite keep_entry_run; reflexivity].
  destruct (datetime pub_date) as [entry_date|]; [|reflexivity].
  destruct (too_old now entry_date); [reflexivity|].
  rewrite keep_entry_run. reflexivity.
Qed.

(** ** What the two scans do to the state *)

Lemma scanned_refl w st : scanned w st st.
Proof.
  split; try reflexivity.
  - exists []. rewrite app_nil_r. split; [reflexivity | constructor].
  - exists []. rewrite app_nil_r. split; [reflexivity | constructor].
Qed.

Lemma scanned_trans w st1 st2 st3 :
  scanned w st1 st2 -> scanned w st2 st3 -> scanned w st1 st3.
Proof.
  intros [[ev1 [Ht1 Hq1]] [rs1 [Hr1 Hf1]] Hs1 Hk1]
         [[ev2 [Ht2 Hq2]] [rs2 [Hr2 Hf2]] Hs2 Hk2].
  split; try congruence.
  - exists (ev1 ++ ev2). rewrite Ht2, Ht1, app_assoc.
    split; [reflexivity | apply Forall_app; split; assumption].
  - exists (rs1 ++ rs2). rewrite Hr2, Hr1, app_assoc.
    split; [reflexivity | apply Forall_app; split; assumption].
Qed.

Lemma scanned_emit w st0 st e :
  quiet e -> scanned w st0 st -> scanned w st0 (exec (emit e) st).
Proof.
  intros He H. eapply scanned_trans; [exact H|].
  split; try reflexivity.
  - exists [e]. split; [reflexivity | repeat constructor; apply He].
  - exists []. rewrite app_nil_r. split; [reflexivity | constructor].
Qed.

Lemma scanned_append w st0 st r :
  from_feed w r -> scanned w st0 st -> scanned w st0 (exec (append_result r) st).
Proof.
  intros Hr H. eapply scanned_trans; [exact H|].
  split; try reflexivity.
  - exists []. rewrite app_nil_r. split; [reflexivity | constructor].
  - exists [r]. split; [reflexivity | repeat constructor; exact Hr].
Qed.

Lemma scanned_sec_entry w st0 st e :
  from_feed w (sec_finding e) ->
  scanned w st0 st -> scanned w st0 (exec (sec_entry e) st).
Proof.
  intros He H. unfold sec_entry.
  destruct (existsb _ cfo_keywords); [|exact H].
  rewrite exec_when_true. apply scanned_append; [exact He | exact H].
Qed.

Lemma scanned_news_entry w st0 st now e :
  from_feed w (news_finding e) ->
  scanned w st0 st -> scanned w st0 (exec (news_entry now e) st).
Proof.
  intros He H. destruct (fresh now e) eqn:E.
  - rewrite news_entry_fresh by exact E.
    destruct (url_seen _ _); [exact H|].
    apply scanned_append; [exact He | exact H].
  - rewrite news_entry_not_fresh by exact E. exact H.
Qed.

Lemma scanned_search_sec w st0 st :
  scanned w st0 st -> scanned w st0 (exec (search_sec_filings w) st).
Proof.
  intros H. unfold search_sec_filings.
  rewrite exec_get_self, exec_seq.
  assert (H1 : scanned w st0
                 (exec (emit (EvSecGet (email_from (self st)
                                          ++ py " CFO Monitor Script"))) st))
    by (apply scanned_emit; [split; reflexivity | exact H]).
  destruct (w_sec w) as [|status entries] eqn:Hw; [exact H1|].
  rewrite exec_seq.
  destruct (Z.eqb_spec status 200) as [->|_].
  - rewrite exec_when_true. apply for_each_inv.
    + intros e st' He. apply scanned_sec_entry.
      exact (from_sec w entries e Hw He).
    + apply scanned_emit; [split; reflexivity | exact H1].
  - rewrite exec_when_false. apply scanned_emit; [split; reflexivity | exact H1].
Qed.

Lemma scanned_news_query w st0 st query :
  In query search_queries ->
  scanned w st0 st -> scanned w st0 (exec (news_query w query) st).
Proof.
  intros Hq H. unfold news_query. rewrite exec_seq.
  assert (H1 : scanned w st0 (exec (emit (EvFeedParse (news_url query))) st))
    by (apply scanned_emit; [split; reflexivity | exact H]).
  destruct (w_news w query) as [entries|] eqn:Hw; [|exact H1].
  rewrite !exec_seq. rewrite exec_ret. apply try_each_from_inv.
  - intros j e st' He. apply scanned_news_entry.
    exact (from_news w query entries e Hq Hw He).
  - apply scanned_emit; [split; reflexivity | exact H1].
Qed.

Lemma scanned_search_news w st0 st :
  scanned w st0 st -> scanned w st0 (exec (search_news w) st).
Proof.
  intros H. unfold search_news. apply for_each_inv; [|exact H].
  intros q st' Hq. apply scanned_news_query, Hq.
Qed.

Lemma scanned_scan w st : scanned w st (exec (scan w) st).
Proof.
  unfold scan. rewrite exec_seq.
  apply scanned_search_news, scanned_search_sec, scanned_refl.
Qed.

(** ** Enrichment and delivery *)

Lemma run_unfold w st :
  run w st
  = send_email w
      (exec (when (negb (bool_decide (results (self (exec (scan w) st)) = [])))
                  (generate_tear_sheets w))
            (exec (scan w) st)).
Proof.
  unfold run, bind, exec, get_self.
  destruct (scan w st) as [[] st1]. simpl.
  destruct (when _ _ st1) as [[] st2]. reflexivity.
Qed.

Lemma send_email_empty w st : results (self st) = [] -> send_email w st = (tt, st).
Proof.
  intros H. unfold send_email, bind, get_self. rewrite H. reflexivity.
Qed.

Lemma generate_without_key w st :
  truthy (of_option (anthropic_api_key (self st))) = false ->
  generate_tear_sheets w st = (tt, st).
Proof.
  intros H. unfold generate_tear_sheets, bind, get_self. rewrite H. reflexivity.
Qed.

(** [send_email] leaves the object alone and adds only mail events, none
    when there is no finding and a connection attempt otherwise. *)
Lemma send_email_spec w st :
  exists evs,
    exec (send_email w) st = {| self := self st; trace := trace st ++ evs |}
    /\ Forall (fun e => is_smtp e = true) evs
    /\ (results (self st) = [] -> evs = [])
    /\ (results (self st) <> [] -> In EvSmtpConnect evs).
Proof.
  unfold send_email. rewrite exec_get_self.
  destruct (results (self st)) as [|r rs] eqn:Hr.
  - exists []. rewrite app_nil_r. destruct st.
    split; [reflexivity|]. split; [constructor|].
    split; [reflexivity | intros H; elim H; reflexivity].
  - assert (Hsent : forall evs : list event,
               (exists tl, evs = EvSmtpConnect :: tl) ->
               Forall (fun e => is_smtp e = true) evs ->
               Forall (fun e => is_smtp e = true) evs
               /\ (r :: rs = [] -> evs = [])
               /\ (r :: rs <> [] -> In EvSmtpConnect evs)).
    { intros evs [tl ->] Hall. split; [exact Hall|].
      split; [discriminate | intros _; left; reflexivity]. }
    destruct (w_smtp w) eqn:Hs.
    + exists [EvSmtpConnect]. split; [reflexivity|].
      apply Hsent; [eexists; reflexivity | repeat constructor].
    + eexists [EvSmtpConnect; EvSmtpLogin _ _].
      split; [unfold exec, bind, emit; simpl; rewrite <- app_assoc; reflexivity|].
      apply Hsent; [eexists; reflexivity | repeat constructor].
    + eexists [EvSmtpConnect; EvSmtpLogin _ _; EvSmtpSend _].
      split; [unfold exec, bind, emit; simpl; rewrite <- !app_assoc; reflexivity|].
      apply Hsent; [eexists; reflexivity | repeat constructor].
    + eexists [EvSmtpConnect; EvSmtpLogin _ _; EvSmtpSend _].
      split; [unfold exec, bind, emit; simpl; rewrite <- !app_assoc; reflexivity|].
      apply Hsent; [eexists; reflexivity | repeat constructor].
Qed.

Lemma keeps_ret {A} (a : A) : keeps_results (ret a).
Proof. intros st. reflexivity. Qed.

Lemma keeps_bind {A B} (m : M A) (f : A -> M B) :
  keeps_results m -> (forall a, keeps_results (f a)) -> keeps_results (bind m f).
Proof.
  intros Hm Hf st. unfold bind. specialize (Hm st).
  destruct (m st) as [a st1]. simpl in Hm. rewrite Hf. exact Hm.
Qed.

Lemma keeps_when b m : keeps_results m -> keeps_results (when b m).
Proof. intros H. destruct b; [exact H | apply keeps_ret]. Qed.

Lemma keeps_emit e : keeps_results (emit e).
Proof. intros st. reflexivity. Qed.

Lemma keeps_post w p : keeps_results (post w p).
Proof. intros st. reflexivity. Qed.

Lemma keeps_append_tear_sheet sheet : keeps_results (append_tear_sheet sheet).
Proof. intros st. reflexivity. Qed.

Lemma keeps_for_each {A} (body : A -> M unit) xs :
  (forall x, keeps_results (body x)) -> keeps_results (for_each xs body).
Proof.
  intros H. induction xs as [|x xs IH]; [apply keeps_ret|].
  simpl. apply keeps_bind; [apply H | intros _; exact IH].
Qed.

Lemma keeps_enrich w result : keeps_results (enrich w result).
Proof.
  unfold enrich.
  apply keeps_bind; [apply keeps_post | intros company_doc].
  apply keeps_bind; [apply keeps_when, keeps_append_tear_sheet | intros _].
  apply keeps_bind; [|intros _; apply keeps_emit].
  apply keeps_when, keeps_bind; [apply keeps_post | intros individual_doc].
  apply keeps_when, keeps_append_tear_sheet.
Qed.

Lemma keeps_generate w : keeps_results (generate_tear_sheets w).
Proof.
  unfold generate_tear_sheets. intros st. unfold bind, get_self.
  destruct (negb _); [reflexivity|].
  apply keeps_for_each. intros r. apply keeps_enrich.
Qed.

(** After the scans the rest of [run] changes no finding. *)
Lemma run_results w st :
  results (self (exec (run w) st)) = results (self (exec (scan w) st)).
Proof.
  unfold exec at 1. rewrite run_unfold.
  set (st1 := exec (scan w) st).
  destruct (send_email_spec w
              (exec (when (negb (bool_decide (results (self st1) = [])))
                          (generate_tear_sheets w)) st1)) as (evs & He & _).
  unfold exec in He at 1. rewrite He. simpl.
  apply (keeps_when _ _ (keeps_generate w)).
Qed.

(** C5: when no finding is collected [send_email] returns at once with
    the state untouched; a run whose scans collect nothing ends, with a
    normal return, in the state the scans left, and its trace holds no
    mail event. *)
Theorem C5_no_findings_no_mail :
  (forall w st, results (self st) = [] -> send_email w st = (tt, st))
  /\ (forall w to from password key,
        results (self (exec (scan w) (start (CFOMonitor to from password key))))
          = [] ->
        run w (start (CFOMonitor to from password key))
          = (tt, exec (scan w) (start (CFOMonitor to from password key)))
        /\ Forall (fun e => is_smtp e = false)
                  (trace (exec (run w) (start (CFOMonitor to from password key))))).
Proof.
  split; [exact send_email_empty|].
  intros w to from password key Hnone.
  set (st0 := start (CFOMonitor to from password key)) in *.
  assert (Hrun : run w st0 = (tt, exec (scan w) st0)).
  { rewrite run_unfold, Hnone.
    change (negb (bool_decide (@nil dict = []))) with false.
    rewrite exec_when_false. apply send_email_empty, Hnone. }
  split; [exact Hrun|].
  unfold exec at 1. rewrite Hrun. simpl.
  destruct (scanned_scan w st0) as [[evs [Ht Hq]] _ _ _].
  rewrite Ht. simpl. eapply Forall_impl; [exact Hq|].
  intros e He. apply He.
Qed.

(** C6: without an API key [generate_tear_sheets] returns at once with
    the state untouched; a run without a key ends with no tear sheet and
    no enrichment call in its trace, and goes on to the mail step, which
    tries to connect whenever a finding was collected. *)
Theorem C6_no_api_key :
  (forall w st,
      truthy (of_option (anthropic_api_key (self st))) = false ->
      generate_tear_sheets w st = (tt, st))
  /\ (forall w to from password key,
        truthy (of_option key) = false ->
        tear_sheets (self (exec (run w) (start (CFOMonitor to from password key))))
          = []
        /\ Forall (fun e => is_api_post e = false)
                  (trace (exec (run w) (start (CFOMonitor to from password key))))
        /\ run w (start (CFOMonitor to from password key))
           = send_email w (exec (scan w) (start (CFOMonitor to from password key)))
        /\ (results (self (exec (scan w) (start (CFOMonitor to from password key))))
              <> [] ->
            In EvSmtpConnect
               (trace (exec (run w) (start (CFOMonitor to from password key)))))).
Proof.
  split; [exact generate_without_key|].
  intros w to from password key Hkey.
  set (st0 := start (CFOMonitor to from password key)) in *.
  destruct (scanned_scan w st0) as [[evs [Ht Hq]] _ Hsheets Hk].
  set (st1 := exec (scan w) st0) in *.
  assert (Hrun : run w st0 = send_email w st1).
  { rewrite run_unfold. fold st1. f_equal.
    destruct (negb _); [|reflexivity].
    rewrite exec_when_true. unfold exec.
    rewrite generate_without_key; [reflexivity|]. rewrite Hk. exact Hkey. }
  destruct (send_email_spec w st1) as (mail & Hmail & Hsmtp & _ & Hconn).
  assert (Hexec : exec (run w) st0 = exec (send_email w) st1)
    by (unfold exec; rewrite Hrun; reflexivity).
  rewrite Hexec, Hmail. simpl.
  split; [exact Hsheets|]. split.
  { rewrite Ht. simpl. apply Forall_app. split.
    - eapply Forall_impl; [exact Hq | intros e He; apply He].
    - eapply Forall_impl; [exact Hsmtp|].
      intros e He. destruct e; simpl in *; congruence. }
  split; [exact Hrun|].
  intros Hne. apply in_or_app. right. apply Hconn, Hne.
Qed.

(** ** Runs without findings, runs without a key *)

(** C5 at a run in which every fetch fails. *)
Lemma C5_no_findings_no_mail_witness :
  results (self (exec (scan silent_world) (start (operator None)))) = []
  /\ run silent_world (start (operator None))
     = (tt, exec (scan silent_world) (start (operator None)))
  /\ Forall (fun e => is_smtp e = false)
            (trace (exec (run silent_world) (start (operator None)))).
Proof.
  assert (H : results (self (exec (scan silent_world) (start (operator None)))) = [])
    by reflexivity.
  split; [exact H|].
  exact (proj2 C5_no_findings_no_mail silent_world _ _ _ None H).
Defined.

(** C6 at a run without a key that finds one article. *)
Lemma C6_no_api_key_witness :
  truthy (of_option None) = false
  /\ results (self (exec (scan one_article_world) (start (operator None)))) <> []
  /\ tear_sheets (self (exec (run one_article_world) (start (operator None)))) = []
  /\ Forall (fun e => is_api_post e = false)
            (trace (exec (run one_article_world) (start (operator None))))
  /\ In EvSmtpConnect
        (trace (exec (run one_article_world) (start (operator None)))).
Proof.
  assert (Hkey : truthy (of_option None) = false) by reflexivity.
  assert (Hne : results (self (exec (scan one_article_world)
                                 (start (operator None)))) <> [])
    by (vm_compute; discriminate).
  pose proof (proj2 C6_no_api_key one_article_world
                (py "to@example.com") (py "from@example.com") (py "secret")
                None Hkey) as (Hs & Ha & _ & Hc).
  split; [exact Hkey|]. split; [exact Hne|]. split; [exact Hs|].
  split; [exact Ha | exact (Hc Hne)].
Defined.

(** ** The recency filter *)

Lemma results_append r st :
  results (self (exec (append_result r) st)) = results (self st) ++ [r].
Proof. reflexivity. Qed.

(** The news loop goes through entries whose timestamps convert and
    then carries on with the rest. *)
Lemma entry_loop_app w query pre : forall j rest st,
  forallb convertible pre = true ->
  entry_loop w query j (pre ++ rest) st
  = entry_loop w query (j + length pre) rest
      (exec (entry_loop w query j pre) st).
Proof.
  induction pre as [|x pre IH]; intros j rest st H.
  - simpl. rewrite Nat.add_0_r. reflexivity.
  - simpl in H. apply andb_true_iff in H as [Hx Hpre].
    unfold entry_loop in *. simpl try_each_from. unfold exec, bind.
    pose proof (news_entry_outcome (w_now w query j) x st) as Ho.
    rewrite Hx in Ho.
    destruct (news_entry (w_now w query j) x st) as [o st1].
    simpl in Ho. subst o. rewrite (IH (S j) rest st1 Hpre).
    simpl length. rewrite Nat.add_succ_r. reflexivity.
Qed.

Lemma news_query_run w query entries st :
  w_news w query = Some entries ->
  exec (news_query w query) st
  = exec (entry_loop w query 0 (take 5 entries))
         (exec (emit (EvSleep 500))
               (exec (emit (EvFeedParse (news_url query))) st)).
Proof.
  intros H. unfold news_query. rewrite exec_seq, H, !exec_seq, exec_ret.
  reflexivity.
Qed.

Lemma fresh_convertible now e : fresh now e = true -> convertible e = true.
Proof.
  unfold fresh, convertible.
  destruct (e_published_parsed e) as [pub_date|]; [|reflexivity].
  destruct (datetime pub_date); [reflexivity | discriminate].
Qed.

Lemma not_fresh_iff now e :
  convertible e = true ->
  (fresh now e = false
   <-> exists pub_date entry_date,
         e_published_parsed e = Some pub_date
         /\ datetime pub_date = Some entry_date
         /\ (two_days < now - entry_date)%Z).
Proof.
  unfold fresh, convertible, too_old.
  destruct (e_published_parsed e) as [pub_date|].
  - destruct (datetime pub_date) as [entry_date|] eqn:Hdate; [|discriminate].
    intros _. rewrite negb_false_iff, Z.ltb_lt. split.
    + intros H. exists pub_date, entry_date.
      split; [reflexivity|]. split; [exact Hdate | exact H].
    + intros (p & d & Hp & Hd & H).
      injection Hp as <-. rewrite Hdate in Hd. injection Hd as <-. exact H.
  - intros _. split; [discriminate|]. intros (p & d & H & _). discriminate.
Qed.

Lemma exec_for_each {A} (body : A -> M unit) xs : forall st,
  exec (for_each xs body) st = fold_left (fun s x => exec (body x) s) xs st.
Proof.
  induction xs as [|x xs IH]; intros st; simpl for_each.
  - apply exec_ret.
  - rewrite exec_seq, IH. reflexivity.
Qed.

(** C7, as stated, fails: a query returns an article stamped 23:59:60,
    which the [datetime] constructor refuses, and after it the article
    "XYZ Files Report", which has no timestamp and a link that no finding
    carries; the run ends without a finding, so the entry without a
    timestamp is not kept. *)
Lemma C7_counterexample :
  w_news leap_second_world (py "new CFO")
  = Some [dated_article (stamp 2026 11 3 23 59 60); report_article]
  /\ datetime (stamp 2026 11 3 23 59 60) = None
  /\ e_published_parsed report_article = None
  /\ url_seen (default [] (e_link report_article))
       (results (self (start (operator None)))) = false
  /\ results (self (exec (run leap_second_world) (start (operator None)))) = [].
Proof. repeat split; vm_compute; reflexivity. Qed.

(** C7 (amended): take one of the first five entries of the feed of a
    news query such that the [datetime] constructor accepts the timestamp
    of every entry before it.  The entry is examined in the state those
    entries left.  If the constructor refuses its timestamp, the handling
    of the query ends there: neither the entry nor the ones after it are
    kept.  Otherwise the loop goes on after it, and when its link is not
    yet among the findings the entry is dropped exactly when it carries a
    timestamp more than two days before the time of the scan; without a
    timestamp, or with one that is two days old or less, its finding is
    appended.  The news source handles its eight queries in this way,
    one after the other, each from the state the one before left. *)
Theorem C7_recency_filter :
  forall w query entries pre e post st,
    w_news w query = Some entries ->
    take 5 entries = pre ++ e :: post ->
    forallb convertible pre = true ->
    (convertible e = false ->
     exec (news_query w query) st = examined_after w query pre st)
    /\ (convertible e = true ->
        exec (news_query w query) st
        = exec (entry_loop w query (S (length pre)) post)
               (exec (news_entry (w_now w query (length pre)) e)
                     (examined_after w query pre st)))
    /\ (convertible e = true ->
        url_seen (default [] (e_link e))
                 (results (self (examined_after w query pre st))) = false ->
        (results (self (exec (news_entry (w_now w query (length pre)) e)
                             (examined_after w query pre st)))
         = results (self (examined_after w query pre st))
         <-> exists pub_date entry_date,
               e_published_parsed e = Some pub_date
               /\ datetime pub_date = Some entry_date
               /\ (two_days < w_now w query (length pre) - entry_date)%Z)
        /\ (e_published_parsed e = None ->
            results (self (exec (news_entry (w_now w query (length pre)) e)
                                (examined_after w query pre st)))
            = results (self (examined_after w query pre st))
                ++ [news_finding e])
        /\ (forall pub_date entry_date,
              e_published_parsed e = Some pub_date ->
              datetime pub_date = Some entry_date ->
              (w_now w query (length pre) - entry_date <= two_days)%Z ->
              results (self (exec (news_entry (w_now w query (length pre)) e)
                                  (examined_after w query pre st)))
              = results (self (examined_after w query pre st))
                  ++ [news_finding e]))
    /\ (forall st0,
          exec (search_news w) st0
          = fold_left (fun s q => exec (news_query w q) s) search_queries st0).
Proof.
  intros w query entries pre e post st Hfeed Hsplit Hpre.
  set (now := w_now w query (length pre)).
  set (s1 := examined_after w query pre st).
  assert (Hrun : exec (news_query w query) st
                 = exec (entry_loop w query (length pre) (e :: post)) s1).
  { rewrite (news_query_run w query entries st Hfeed), Hsplit.
    unfold exec at 1. rewrite entry_loop_app by exact Hpre. reflexivity. }
  assert (Hstep : exec (entry_loop w query (length pre) (e :: post)) s1
                  = if convertible e
                    then exec (entry_loop w query (S (length pre)) post)
                              (exec (news_entry now e) s1)
                    else exec (news_entry now e) s1).
  { unfold entry_loop. simpl try_each_from. rewrite exec_bind.
    fold now. rewrite (news_entry_outcome now e s1).
    destruct (convertible e); reflexivity. }
  split; [|split; [|split]].
  - intros Hbad. rewrite Hrun, Hstep, Hbad.
    apply news_entry_not_fresh. destruct (fresh now e) eqn:E; [|reflexivity].
    apply fresh_convertible in E. congruence.
  - intros Hok. rewrite Hrun, Hstep, Hok. reflexivity.
  - intros Hok Hnew.
    assert (Hkeep : fresh now e = true ->
                    results (self (exec (news_entry now e) s1))
                    = results (self s1) ++ [news_finding e]).
    { intros H. rewrite news_entry_fresh by exact H. rewrite Hnew.
      apply results_append. }
    split; [|split].
    + rewrite <- (not_fresh_iff now e Hok). destruct (fresh now e) eqn:E.
      * rewrite (Hkeep eq_refl). split; [|discriminate].
        intros H. apply (f_equal length) in H.
        rewrite length_app in H. simpl in H. lia.
      * rewrite news_entry_not_fresh by exact E. split; reflexivity.
    + intros Hnone. apply Hkeep. unfold fresh. rewrite Hnone. reflexivity.
    + intros pub_date entry_date Hp Hd Hle. apply Hkeep.
      unfold fresh, too_old. rewrite Hp, Hd.
      apply negb_true_iff, Z.ltb_ge. exact Hle.
  - intros st0. unfold search_news. apply exec_for_each.
Qed.

(** The amended statement at a feed whose first article is three days
    old and whose second has no timestamp: the first is dropped, the
    second kept. *)
Lemma C7_recency_filter_witness :
  w_news old_and_undated_world (py "new CFO")
  = Some [dated_article (stamp 2026 10 31 9 0 0); report_article]
  /\ forallb convertible [dated_article (stamp 2026 10 31 9 0 0)] = true
  /\ results (self (exec (news_entry (instant 2026 11 3 12 0 0)
                            (dated_article (stamp 2026 10 31 9 0 0)))
                         (examined_after old_and_undated_world (py "new CFO") []
                            (start (operator None)))))
     = []
  /\ results (self (exec (news_entry (instant 2026 11 3 12 0 0) report_article)
                         (examined_after old_and_undated_world (py "new CFO")
                            [dated_article (stamp 2026 10 31 9 0 0)]
                            (start (operator None)))))
     = [news_finding report_article].
Proof.
  assert (Hfeed : w_news old_and_undated_world (py "new CFO")
                  = Some [dated_article (stamp 2026 10 31 9 0 0); report_article])
    by reflexivity.
  assert (Hpre : forallb convertible [dated_article (stamp 2026 10 31 9 0 0)]
                 = true) by reflexivity.
  split; [exact Hfeed|]. split; [exact Hpre|]. split.
  - apply (proj1 (proj1 (proj2 (proj2
             (C7_recency_filter old_and_undated_world (py "new CFO") _ []
                (dated_article (stamp 2026 10 31 9 0 0)) [report_article]
                (start (operator None)) Hfeed eq_refl eq_refl)))
             eq_refl eq_refl)).
    exists (stamp 2026 10 31 9 0 0), (instant 2026 10 31 9 0 0).
    split; [reflexivity|]. split; reflexivity.
  - apply (proj1 (proj2 (proj1 (proj2 (proj2
             (C7_recency_filter old_and_undated_world (py "new CFO") _
                [dated_article (stamp 2026 10 31 9 0 0)]
                report_article [] (start (operator None)) Hfeed eq_refl Hpre)))
             eq_refl eq_refl))).
    reflexivity.
Defined.

(** ** The findings of a run *)

Lemma sec_finding_fields e :
  sec_finding e !! "source"%string = Some (PStr (py "SEC EDGAR"))
  /\ sec_finding e !! "summary"%string
     = Some (PStr (take 300 (default [] (e_summary e))))
  /\ sec_finding e !! "url"%string = Some (PStr (default [] (e_link e)))
  /\ sec_finding e !! "individual"%string
     = Some (of_option (_extract_individual_name (default [] (e_title e))
                                                 (default [] (e_summary e)))).
Proof. repeat split; reflexivity. Qed.

Lemma news_finding_fields e :
  news_finding e !! "source"%string
  = Some (PStr (py "News: " ++ default (py "Unknown") (default None (e_source e))))
  /\ news_finding e !! "summary"%string = Some (PStr [])
  /\ news_finding e !! "url"%string = Some (PStr (default [] (e_link e)))
  /\ news_finding e !! "individual"%string
     = Some (of_option (_extract_individual_name (default [] (e_title e)) [])).
Proof. repeat split; reflexivity. Qed.

(** Every finding of a run was built by one of the sources from an entry
    of its feed. *)
Lemma run_findings_from_feed w to from password key r :
  In r (results (self (exec (run w) (start (CFOMonitor to from password key))))) ->
  from_feed w r.
Proof.
  rewrite run_results.
  destruct (scanned_scan w (start (CFOMonitor to from password key)))
    as [_ [rs [Hr Hf]] _ _].
  rewrite Hr. simpl. intros Hin.
  rewrite List.Forall_forall in Hf. apply Hf, Hin.
Qed.

(** C10: every finding of a run comes either from an entry of the
    filings feed, and then stores as its summary the first 300 characters
    of that entry's summary, at most 300 characters, or from one of the
    first five entries of a news feed, and then stores the empty summary
    and the name extracted from the entry's title and the empty string. *)
Theorem C10_stored_summaries :
  forall w to from password key r,
    In r (results (self (exec (run w) (start (CFOMonitor to from password key))))) ->
    sec_stored w r \/ news_stored w r.
Proof.
  intros w to from password key r Hin.
  apply run_findings_from_feed in Hin.
  destruct Hin as [entries e Hw He | query entries e Hq Hw He].
  - left. exists entries, e.
    destruct (sec_finding_fields e) as (Hsrc & Hsum & _ & _).
    repeat (split; [first [assumption | reflexivity]|]).
    unfold item. rewrite Hsum. simpl. rewrite length_take. lia.
  - right. exists query, entries, e.
    destruct (news_finding_fields e) as (Hsrc & Hsum & _ & Hind).
    repeat (split; [first [assumption | reflexivity]|]).
    exact Hind.
Qed.

(** C10 at the filing with the long summary. *)
Lemma C10_stored_summaries_witness :
  length (default [] (e_summary long_filing)) = 420
  /\ In (sec_finding long_filing)
        (results (self (exec (run twice_listed_world) (start (operator None)))))
  /\ (sec_stored twice_listed_world (sec_finding long_filing)
      \/ news_stored twice_listed_world (sec_finding long_filing)).
Proof.
  assert (Hin : In (sec_finding long_filing)
                  (results (self (exec (run twice_listed_world)
                                       (start (operator None))))))
    by (vm_compute; left; reflexivity).
  split; [reflexivity|]. split; [exact Hin|].
  exact (C10_stored_summaries twice_listed_world _ _ _ None _ Hin).
Defined.

(** ** Duplicate links *)

Lemma url_seen_iff link rs : url_seen link rs = true <-> In (PStr link) (urls rs).
Proof.
  unfold url_seen, urls. rewrite existsb_exists, in_map_iff. split.
  - intros (r & Hr & Hv). exists r. unfold val_is in Hv.
    apply bool_decide_eq_true in Hv. split; assumption.
  - intros (r & Hv & Hr). exists r. split; [exact Hr|].
    unfold val_is. apply bool_decide_eq_true. exact Hv.
Qed.

(** The news source never adds a link that is already there: findings
    with distinct links stay so through [search_news]. *)
Lemma news_entry_distinct now e st :
  NoDup (urls (results (self st))) ->
  NoDup (urls (results (self (exec (news_entry now e) st)))).
Proof.
  intros H. destruct (fresh now e) eqn:E;
    [|rewrite news_entry_not_fresh by exact E; exact H].
  - rewrite news_entry_fresh by exact E.
    destruct (url_seen _ _) eqn:Hseen; [exact H|].
    rewrite results_append. unfold urls. rewrite map_app. simpl.
    apply NoDup_app. split; [exact H|]. split.
    + intros v Hv Hv'. apply list_elem_of_In in Hv, Hv'.
      destruct Hv' as [<-|[]].
      assert (Hs : url_seen (default [] (e_link e)) (results (self st)) = true)
        by (apply url_seen_iff; exact Hv).
      congruence.
    + apply NoDup_singleton.
Qed.

Lemma search_news_distinct w st :
  NoDup (urls (results (self st))) ->
  NoDup (urls (results (self (exec (search_news w) st)))).
Proof.
  unfold search_news.
  apply (for_each_inv (fun st => NoDup (urls (results (self st))))).
  intros q st' _ H. unfold news_query. rewrite exec_seq.
  change (results (self (exec (emit (EvFeedParse (news_url q))) st')))
    with (results (self st')) in *.
  destruct (w_news w q) as [entries|]; [|exact H].
  rewrite !exec_seq. rewrite exec_ret.
  apply (try_each_from_inv (fun st => NoDup (urls (results (self st))))).
  - intros j e st'' _. apply news_entry_distinct.
  - exact H.
Qed.

(** C1: the filings source appends every entry that mentions a keyword
    without looking at the links already collected.  When the filings
    feed lists one filing twice, the run ends with three findings, the
    first two carrying the same link. *)
Theorem C1_filing_listed_twice_kept_twice :
  urls (results (self (exec (run twice_listed_world) (start (operator None)))))
  = [PStr (py "https://www.sec.gov/Archives/edgar/data/1234567/index.htm");
     PStr (py "https://www.sec.gov/Archives/edgar/data/1234567/index.htm");
     PStr (py "https://news.example/xyz")]
  /\ results (self (exec (run twice_listed_world) (start (operator None))))
     = [sec_finding long_filing; sec_finding long_filing;
        news_finding report_article].
Proof. split; vm_compute; reflexivity. Qed.

(** ** The list line of a finding *)

(** The default of [result.get('individual', ...)] is for a missing key;
    the sources store the key with the value [None], and the line then
    ends in the text of [None]. *)
Lemma finding_line_absent result :
  result !! "individual"%string = Some PNone ->
  finding_line result
  = py "<li><strong>" ++ fmt (item result "company") ++ py "</strong> - None</li>".
Proof.
  intros H. unfold finding_line, dict_get_default. rewrite H. reflexivity.
Qed.

Lemma finding_line_missing_key result :
  result !! "individual"%string = None ->
  finding_line result
  = py "<li><strong>" ++ fmt (item result "company")
      ++ py "</strong> - Individual name not identified</li>".
Proof.
  intros H. unfold finding_line, dict_get_default. rewrite H. reflexivity.
Qed.

(** C3: a run that finds the article "XYZ Files Report", from which no
    name is extracted, sends one message; its body holds the line
    "<li><strong>Company in article</strong> - None</li>" for that finding
    and nowhere the words "not identified". *)
Theorem C3_absent_individual_line :
  results (self (exec (run one_article_world) (start (operator None))))
    = [news_finding report_article]
  /\ news_finding report_article !! "individual"%string = Some PNone
  /\ finding_line (news_finding report_article)
     = py "<li><strong>Company in article</strong> - None</li>"
  /\ map (contains (py "<li><strong>Company in article</strong> - None</li>"))
         (mail_bodies (trace (exec (run one_article_world) (start (operator None)))))
     = [true]
  /\ map (contains (py "not identified"))
         (mail_bodies (trace (exec (run one_article_world) (start (operator None)))))
     = [false].
Proof. repeat split; vm_compute; reflexivity. Qed.

(** * Further properties of the code *)

(** ** The filings source *)

Lemma sec_entry_results e st :
  results (self (exec (sec_entry e) st))
  = results (self st) ++ (if mentions_cfo e then [sec_finding e] else []).
Proof.
  unfold sec_entry.
  change (existsb _ cfo_keywords) with (mentions_cfo e).
  destruct (mentions_cfo e).
  - rewrite exec_when_true. apply results_append.
  - rewrite exec_when_false, app_nil_r. reflexivity.
Qed.

Lemma sec_entries_results entries : forall st,
  results (self (exec (for_each entries sec_entry) st))
  = results (self st) ++ map sec_finding (List.filter mentions_cfo entries).
Proof.
  induction entries as [|e entries IH]; intros st; simpl.
  - rewrite app_nil_r. reflexivity.
  - rewrite exec_seq, IH, sec_entry_results.
    destruct (mentions_cfo e); simpl; rewrite <- app_assoc; reflexivity.
Qed.

Lemma search_sec_results w st :
  results (self (exec (search_sec_filings w) st))
  = results (self st) ++ sec_findings (w_sec w).
Proof.
  unfold search_sec_filings, sec_findings.
  rewrite exec_get_self, exec_seq.
  destruct (w_sec w) as [|status entries]; [rewrite app_nil_r; reflexivity|].
  rewrite exec_seq. destruct (status =? 200)%Z.
  - rewrite exec_when_true, sec_entries_results. reflexivity.
  - rewrite exec_when_false, app_nil_r. reflexivity.
Qed.

(** X1: the filings scan appends, in feed order, one finding for each
    entry whose lower-cased title and summary mention a keyword, and
    nothing when the request fails or the status is not 200. *)
Theorem sec_scan_appends_matching_entries :
  forall w st,
    results (self (exec (search_sec_filings w) st))
    = results (self st) ++ sec_findings (w_sec w).
Proof. exact search_sec_results. Qed.

Lemma split_head_single c s : Forall (fun x => x <> c) (split_head [c] s).
Proof.
  induction s as [|x s IH]; simpl; [constructor|].
  destruct (Ascii.eqb_spec c x) as [->|Hne]; simpl; constructor.
  - intros ->. apply Hne. reflexivity.
  - exact IH.
Qed.

Lemma not_contains_single c s :
  contains [c] s = false -> Forall (fun x => x <> c) s.
Proof.
  induction s as [|x s IH]; simpl; [constructor|].
  destruct (Ascii.eqb_spec c x) as [->|Hne]; simpl; [discriminate|].
  intros H. constructor; [|apply IH, H].
  intros ->. apply Hne. reflexivity.
Qed.

(** X2: the company of a filings finding never holds an opening
    parenthesis: the title is cut at the first one. *)
Theorem sec_company_has_no_parenthesis :
  forall e, exists company,
    sec_finding e !! "company"%string = Some (PStr company)
    /\ Forall (fun c => c <> "("%char) company.
Proof.
  intros e. eexists. split; [reflexivity|].
  destruct (contains (py "(") (default [] (e_title e))) eqn:E.
  - apply strip_Forall. apply (split_head_single "(").
  - apply (not_contains_single "("), E.
Qed.

(** ** The news source *)

Lemma trace_append_result r st : trace (exec (append_result r) st) = trace st.
Proof. reflexivity. Qed.

Lemma news_entry_trace now e st : trace (exec (news_entry now e) st) = trace st.
Proof.
  destruct (fresh now e) eqn:E.
  - rewrite news_entry_fresh by exact E.
    destruct (url_seen _ _); reflexivity.
  - rewrite news_entry_not_fresh by exact E. reflexivity.
Qed.

Lemma news_entry_count now e st :
  length (results (self (exec (news_entry now e) st)))
  <= length (results (self st)) + 1.
Proof.
  destruct (fresh now e) eqn:E.
  - rewrite news_entry_fresh by exact E.
    destruct (url_seen _ _); [lia|].
    rewrite results_append, length_app. simpl. lia.
  - rewrite news_entry_not_fresh by exact E. lia.
Qed.

Lemma news_entries_effect (clock : nat -> Z) entries : forall j st,
  trace (exec (try_each_from j entries (fun i e => news_entry (clock i) e)) st)
  = trace st
  /\ length (results (self (exec (try_each_from j entries
                                    (fun i e => news_entry (clock i) e)) st)))
     <= length (results (self st)) + length entries.
Proof.
  induction entries as [|e entries IH]; intros j st; simpl.
  - rewrite exec_ret. split; [reflexivity | lia].
  - rewrite exec_bind.
    change (snd (news_entry (clock j) e st))
      with (exec (news_entry (clock j) e) st).
    pose proof (news_entry_count (clock j) e st) as Hc.
    destruct (fst (news_entry (clock j) e st)).
    + destruct (IH (S j) (exec (news_entry (clock j) e) st)) as [Ht Hn].
      rewrite Ht, news_entry_trace. split; [reflexivity | lia].
    + rewrite exec_ret, news_entry_trace. split; [reflexivity | lia].
Qed.

Lemma feed_urls_app tr1 tr2 :
  feed_urls (tr1 ++ tr2) = feed_urls tr1 ++ feed_urls tr2.
Proof. apply omap_app. Qed.

Lemma news_query_effect w query st :
  feed_urls (trace (exec (news_query w query) st))
  = feed_urls (trace st) ++ [news_url query]
  /\ length (results (self (exec (news_query w query) st)))
     <= length (results (self st)) + 5.
Proof.
  unfold news_query. rewrite exec_seq.
  set (st1 := exec (emit (EvFeedParse (news_url query))) st).
  assert (H1 : feed_urls (trace st1) = feed_urls (trace st) ++ [news_url query]).
  { change (trace st1) with (trace st ++ [EvFeedParse (news_url query)]).
    rewrite feed_urls_app. reflexivity. }
  destruct (w_news w query) as [entries|].
  - rewrite !exec_seq. rewrite exec_ret.
    destruct (news_entries_effect (w_now w query) (take 5 entries) 0
                (exec (emit (EvSleep 500)) st1)) as [Ht Hn].
    rewrite Ht. split.
    + change (trace (exec (emit (EvSleep 500)) st1))
        with (trace st1 ++ [EvSleep 500]).
      rewrite feed_urls_app, H1. simpl. rewrite app_nil_r. reflexivity.
    + rewrite length_take in Hn.
      change (results (self (exec (emit (EvSleep 500)) st1)))
        with (results (self st)) in Hn.
      lia.
  - rewrite exec_ret. split; [exact H1|].
    change (results (self st1)) with (results (self st)). lia.
Qed.

Lemma news_queries_effect w queries : forall st,
  feed_urls (trace (exec (for_each queries (news_query w)) st))
  = feed_urls (trace st) ++ map news_url queries
  /\ length (results (self (exec (for_each queries (news_query w)) st)))
     <= length (results (self st)) + 5 * length queries.
Proof.
  induction queries as [|q queries IH]; intros st; simpl.
  - rewrite exec_ret, app_nil_r. split; [reflexivity | lia].
  - rewrite exec_seq.
    destruct (IH (exec (news_query w q) st)) as [Ht Hn].
    destruct (news_query_effect w q st) as [Ht1 Hn1].
    rewrite Ht, Ht1, <- app_assoc. split; [reflexivity | lia].
Qed.

(** X3: every one of the eight queries is fetched, in the order of the
    list, whatever the earlier fetches gave: a failing query does not
    stop the ones after it. *)
Theorem news_fetches_every_query :
  forall w st,
    feed_urls (trace (exec (search_news w) st))
    = feed_urls (trace st) ++ map news_url search_queries.
Proof. intros w st. apply news_queries_effect. Qed.

(** X4: a news query adds at most five findings and the news scan at most
    forty. *)
Theorem news_adds_at_most_five_per_query :
  (forall w query st,
      length (results (self (exec (news_query w query) st)))
      <= length (results (self st)) + 5)
  /\ (forall w st,
        length (results (self (exec (search_news w) st)))
        <= length (results (self st)) + 40).
Proof.
  split; [intros w query st; apply news_query_effect|].
  intros w st. apply (news_queries_effect w search_queries st).
Qed.

Lemma news_entry_seen now e st :
  url_seen (default [] (e_link e)) (results (self st)) = true ->
  exec (news_entry now e) st = st.
Proof.
  intros H. destruct (fresh now e) eqn:E.
  - rewrite news_entry_fresh by exact E. rewrite H. reflexivity.
  - apply news_entry_not_fresh, E.
Qed.

Lemma search_sec_results_start w to from password key :
  results (self (exec (search_sec_filings w)
                      (start (CFOMonitor to from password key))))
  = sec_findings (w_sec w).
Proof. rewrite search_sec_results. reflexivity. Qed.

(** X5: a news entry whose link is already among the findings, of either
    source, changes nothing; the news scan keeps distinct links distinct;
    so when the findings of the filings feed carry pairwise distinct links,
    all findings of the run do. *)
Theorem links_stay_distinct :
  (forall now e st,
      url_seen (default [] (e_link e)) (results (self st)) = true ->
      exec (news_entry now e) st = st)
  /\ (forall w st,
        NoDup (urls (results (self st))) ->
        NoDup (urls (results (self (exec (search_news w) st)))))
  /\ (forall w to from password key,
        NoDup (urls (sec_findings (w_sec w))) ->
        NoDup (urls (results (self (exec (run w)
                                      (start (CFOMonitor to from password key))))))).
Proof.
  split; [exact news_entry_seen|]. split; [exact search_news_distinct|].
  intros w to from password key H.
  rewrite run_results. unfold scan. rewrite exec_seq.
  apply search_news_distinct. rewrite search_sec_results_start. exact H.
Qed.

(** Distinct links at a run in which two queries return the same article
    and one article carries the link of the filing. *)
Lemma links_stay_distinct_witness :
  NoDup (urls (sec_findings (w_sec overlap_world)))
  /\ results (self (exec (run overlap_world) (start (operator None))))
     = [sec_finding long_filing; news_finding report_article]
  /\ NoDup (urls (results (self (exec (run overlap_world)
                                     (start (operator None)))))).
Proof.
  assert (H : NoDup (urls (sec_findings (w_sec overlap_world)))).
  { vm_compute. apply NoDup_singleton. }
  split; [exact H|]. split; [vm_compute; reflexivity|].
  exact (proj2 (proj2 links_stay_distinct) overlap_world _ _ _ None H).
Defined.

(** ** Enrichment *)

Lemma api_posts_app tr1 tr2 : api_posts (tr1 ++ tr2) = api_posts tr1 + api_posts tr2.
Proof. unfold api_posts. rewrite List.filter_app, length_app. reflexivity. Qed.

Lemma post_index tr p :
  length (List.filter is_api_post (tr ++ [EvApiPost p])) = S (api_posts tr).
Proof. unfold api_posts. rewrite List.filter_app, length_app. simpl. lia. Qed.

Lemma enrich_effect w result st :
  trace (exec (enrich w result) st) = trace st ++ enrich_events w result
  /\ tear_sheets (self (exec (enrich w result) st))
     = tear_sheets (self st) ++ enrich_sheets w (api_posts (trace st)) result
  /\ anthropic_api_key (self (exec (enrich w result) st))
     = anthropic_api_key (self st)
  /\ results (self (exec (enrich w result) st)) = results (self st).
Proof.
  unfold enrich_events, enrich_sheets, usable.
  cbv [enrich exec bind _generate_company_tear_sheet
       _generate_individual_tear_sheet post when append_tear_sheet emit ret
       snd fst].
  fold (api_posts (trace st)).
  fold (company_prompt w result). fold (individual_prompt w result).
  fold (has_individual result).
  destruct (truthy (of_option (reply_text (w_api w (api_posts (trace st))))));
    destruct (has_individual result);
    cbn beta iota delta [self trace tear_sheets anthropic_api_key results andb];
    rewrite ?post_index;
    try destruct (truthy (of_option
                            (reply_text (w_api w (S (api_posts (trace st)))))));
    cbn beta iota delta [self trace tear_sheets anthropic_api_key results app];
    rewrite <- ?app_assoc; rewrite ?app_nil_r;
    repeat split; reflexivity.
Qed.

Lemma enrich_sheets_count w n result :
  length (enrich_sheets w n result)
  = length (List.filter (usable w)
              (seq n (1 + (if has_individual result then 1 else 0)))).
Proof.
  unfold enrich_sheets. rewrite length_app.
  destruct (has_individual result); simpl;
    destruct (usable w n); try destruct (usable w (S n)); reflexivity.
Qed.

Lemma enrich_events_posts w result :
  api_posts (enrich_events w result)
  = 1 + (if has_individual result then 1 else 0).
Proof. unfold enrich_events. destruct (has_individual result); reflexivity. Qed.

Lemma requests_cons r rs :
  requests (r :: rs) = (1 + (if has_individual r then 1 else 0)) + requests rs.
Proof. unfold requests. simpl. destruct (has_individual r); simpl; lia. Qed.

Lemma endswith_app suffix s : endswith suffix (s ++ suffix) = true.
Proof.
  unfold endswith. rewrite rev_app_distr.
  induction (rev suffix) as [|c t IH]; simpl; [reflexivity|].
  rewrite Ascii.eqb_refl. exact IH.
Qed.

Lemma company_sheet_ok result doc :
  truthy (of_option doc) = true -> sheet_ok (company_sheet result doc).
Proof.
  intros H. split; [exact H|]. split.
  - change (as_str (item (company_sheet result doc) "filename"))
      with (_sanitize_filename (as_str (item result "company"))
              ++ py "_Company_TearSheet.docx").
    rewrite length_app. pose proof (sanitize_length (as_str (item result "company"))).
    simpl. lia.
  - change (as_str (item (company_sheet result doc) "filename"))
      with (_sanitize_filename (as_str (item result "company"))
              ++ py "_Company" ++ py "_TearSheet.docx").
    rewrite app_assoc. apply endswith_app.
Qed.

Lemma individual_sheet_ok result doc :
  truthy (of_option doc) = true -> sheet_ok (individual_sheet result doc).
Proof.
  intros H. split; [exact H|]. split.
  - change (as_str (item (individual_sheet result doc) "filename"))
      with (_sanitize_filename (as_str (item result "individual"))
              ++ py "_Individual_TearSheet.docx").
    rewrite length_app.
    pose proof (sanitize_length (as_str (item result "individual"))).
    simpl. lia.
  - change (as_str (item (individual_sheet result doc) "filename"))
      with (_sanitize_filename (as_str (item result "individual"))
              ++ py "_Individual" ++ py "_TearSheet.docx").
    rewrite app_assoc. apply endswith_app.
Qed.

Lemma enrich_sheets_ok w n result : Forall sheet_ok (enrich_sheets w n result).
Proof.
  unfold enrich_sheets, usable. apply Forall_app. split.
  - destruct (truthy (of_option (reply_text (w_api w n)))) eqn:E;
      [|constructor].
    constructor; [apply company_sheet_ok, E | constructor].
  - destruct (has_individual result); simpl; [|constructor].
    destruct (truthy (of_option (reply_text (w_api w (S n))))) eqn:E;
      [|constructor].
    constructor; [apply individual_sheet_ok, E | constructor].
Qed.

(** The enrichment loop over a list of findings. *)
Lemma enrich_loop w rs : forall st,
  trace (exec (for_each rs (enrich w)) st)
  = trace st ++ concat (map (enrich_events w) rs)
  /\ (exists sheets,
        tear_sheets (self (exec (for_each rs (enrich w)) st))
        = tear_sheets (self st) ++ sheets
        /\ Forall sheet_ok sheets
        /\ length sheets
           = length (List.filter (usable w)
                       (seq (api_posts (trace st)) (requests rs))))
  /\ anthropic_api_key (self (exec (for_each rs (enrich w)) st))
     = anthropic_api_key (self st)
  /\ results (self (exec (for_each rs (enrich w)) st)) = results (self st).
Proof.
  induction rs as [|r rs IH]; intros st.
  - simpl. rewrite exec_ret, app_nil_r. split; [reflexivity|].
    split; [|split; reflexivity].
    exists []. rewrite app_nil_r. repeat split. constructor.
  - simpl for_each. rewrite exec_seq.
    destruct (enrich_effect w r st) as (Ht & Hs & Hk & Hr).
    destruct (IH (exec (enrich w r) st)) as (Ht' & (sheets & Hs' & Hok & Hn) & Hk' & Hr').
    split; [|split; [|split; congruence]].
    + rewrite Ht', Ht. simpl. rewrite <- app_assoc. reflexivity.
    + exists (enrich_sheets w (api_posts (trace st)) r ++ sheets).
      split; [rewrite Hs', Hs, <- app_assoc; reflexivity|].
      split; [apply Forall_app; split; [apply enrich_sheets_ok | exact Hok]|].
      rewrite length_app, Hn, Ht, api_posts_app, enrich_events_posts.
      rewrite requests_cons, seq_app, List.filter_app, length_app.
      rewrite enrich_sheets_count. reflexivity.
Qed.

Lemma generate_with_key w st :
  truthy (of_option (anthropic_api_key (self st))) = true ->
  exec (generate_tear_sheets w) st
  = exec (for_each (results (self st)) (enrich w)) st.
Proof.
  intros H. unfold generate_tear_sheets. rewrite exec_get_self, H. reflexivity.
Qed.

Lemma enrich_events_requests w rs :
  api_posts (concat (map (enrich_events w) rs)) = requests rs.
Proof.
  induction rs as [|r rs IH]; [reflexivity|].
  change (concat (map (enrich_events w) (r :: rs)))
    with (enrich_events w r ++ concat (map (enrich_events w) rs)).
  rewrite api_posts_app, enrich_events_posts, requests_cons, IH.
  reflexivity.
Qed.

Lemma generate_trace w st :
  truthy (of_option (anthropic_api_key (self st))) = true ->
  trace (exec (generate_tear_sheets w) st)
  = trace st ++ concat (map (enrich_events w) (results (self st))).
Proof.
  intros Hkey. rewrite generate_with_key by exact Hkey.
  apply (enrich_loop w (results (self st)) st).
Qed.

(** X8: with a key, enrichment handles the findings in order: for each one a
    company request, then an individual request when a name was
    extracted, then a pause of two seconds; it makes one request per
    finding plus one per finding with a name. *)
Theorem enrichment_requests :
  forall w st,
    truthy (of_option (anthropic_api_key (self st))) = true ->
    trace (exec (generate_tear_sheets w) st)
    = trace st ++ concat (map (enrich_events w) (results (self st)))
    /\ api_posts (trace (exec (generate_tear_sheets w) st))
       = api_posts (trace st) + length (results (self st))
         + length (List.filter has_individual (results (self st))).
Proof.
  intros w st Hkey. pose proof (generate_trace w st Hkey) as Ht.
  split; [exact Ht|].
  rewrite Ht, api_posts_app, enrich_events_requests. unfold requests. lia.
Qed.

(** X9: with a key, enrichment files exactly one tear sheet for each request
    answered with a text that is not empty, and each tear sheet carries
    that text and a file name of at most 76 characters ending in
    "_TearSheet.docx"; when no request is so answered the tear sheets are
    left as they were. *)
Theorem tear_sheets_follow_replies :
  forall w st,
    truthy (of_option (anthropic_api_key (self st))) = true ->
    (exists sheets,
        tear_sheets (self (exec (generate_tear_sheets w) st))
        = tear_sheets (self st) ++ sheets
        /\ Forall sheet_ok sheets
        /\ length sheets
           = length (List.filter (usable w)
                       (seq (api_posts (trace st))
                            (requests (results (self st))))))
    /\ ((forall n, usable w n = false) ->
        tear_sheets (self (exec (generate_tear_sheets w) st))
        = tear_sheets (self st)).
Proof.
  intros w st Hkey. rewrite generate_with_key by exact Hkey.
  destruct (enrich_loop w (results (self st)) st)
    as (_ & (sheets & Hs & Hok & Hn) & _).
  split; [exists sheets; auto|].
  intros Hnone. rewrite Hs.
  assert (Hz : length sheets = 0).
  { rewrite Hn. generalize (seq (api_posts (trace st)) (requests (results (self st)))).
    intros l. induction l as [|n l IH]; simpl; [reflexivity|].
    rewrite Hnone. exact IH. }
  destruct sheets; [apply app_nil_r | discriminate].
Qed.

(** Enrichment at a run with two findings and three requests, one of
    them answered with a text. *)
Lemma enrichment_requests_witness :
  truthy (of_option (anthropic_api_key
                       (self (exec (scan two_findings_world)
                                   (start (operator (Some (py "key"))))))))
    = true
  /\ api_posts (trace (exec (generate_tear_sheets two_findings_world)
                        (exec (scan two_findings_world)
                              (start (operator (Some (py "key")))))))
     = 3.
Proof.
  assert (H : truthy (of_option (anthropic_api_key
                (self (exec (scan two_findings_world)
                            (start (operator (Some (py "key")))))))) = true)
    by reflexivity.
  split; [exact H|].
  rewrite (proj2 (enrichment_requests two_findings_world _ H)).
  vm_compute. reflexivity.
Defined.

Lemma tear_sheets_follow_replies_witness :
  truthy (of_option (anthropic_api_key
                       (self (exec (scan two_findings_world)
                                   (start (operator (Some (py "key"))))))))
    = true
  /\ exists sheets,
       tear_sheets (self (exec (generate_tear_sheets two_findings_world)
                            (exec (scan two_findings_world)
                                  (start (operator (Some (py "key")))))))
       = [] ++ sheets
       /\ Forall sheet_ok sheets
       /\ length sheets = 1.
Proof.
  assert (H : truthy (of_option (anthropic_api_key
                (self (exec (scan two_findings_world)
                            (start (operator (Some (py "key")))))))) = true)
    by reflexivity.
  split; [exact H|].
  destruct (proj1 (tear_sheets_follow_replies two_findings_world _ H))
    as (sheets & Hs & Hok & Hn).
  exists sheets. split; [exact Hs|]. split; [exact Hok|].
  rewrite Hn. vm_compute. reflexivity.
Defined.

(** ** The settings and the findings through a run *)

Lemma config_ret {A} (a : A) : keeps_config (ret a).
Proof. intros st. reflexivity. Qed.

Lemma config_bind {A B} (m : M A) (f : A -> M B) :
  keeps_config m -> (forall a, keeps_config (f a)) -> keeps_config (bind m f).
Proof.
  intros Hm Hf st. unfold bind. specialize (Hm st).
  destruct (m st) as [a st1]. simpl in Hm. rewrite Hf. exact Hm.
Qed.

Lemma config_when b m : keeps_config m -> keeps_config (when b m).
Proof. intros H. destruct b; [exact H | apply config_ret]. Qed.

Lemma config_get_self : keeps_config get_self.
Proof. intros st. reflexivity. Qed.

Lemma config_emit e : keeps_config (emit e).
Proof. intros st. reflexivity. Qed.

Lemma config_append_result r : keeps_config (append_result r).
Proof. intros st. reflexivity. Qed.

Lemma config_append_tear_sheet sheet : keeps_config (append_tear_sheet sheet).
Proof. intros st. reflexivity. Qed.

Lemma config_post w p : keeps_config (post w p).
Proof. intros st. reflexivity. Qed.

Lemma config_for_each {A} (body : A -> M unit) xs :
  (forall x, keeps_config (body x)) -> keeps_config (for_each xs body).
Proof.
  intros H. induction xs as [|x xs IH]; [apply config_ret|].
  simpl. apply config_bind; [apply H | intros _; exact IH].
Qed.

Lemma config_try_each_from {A} (body : nat -> A -> M outcome) xs :
  (forall j x, keeps_config (body j x)) ->
  forall j, keeps_config (try_each_from j xs body).
Proof.
  intros H. induction xs as [|x xs IH]; intros j; [apply config_ret|].
  simpl. apply config_bind; [apply H | intros o].
  destruct o; [apply IH | apply config_ret].
Qed.

Lemma config_search_sec w : keeps_config (search_sec_filings w).
Proof.
  unfold search_sec_filings.
  apply config_bind; [apply config_get_self | intros m].
  apply config_bind; [apply config_emit | intros _].
  destruct (w_sec w) as [|status entries]; [apply config_ret|].
  apply config_bind; [apply config_emit | intros _].
  apply config_when, config_for_each. intros e. unfold sec_entry.
  apply config_when, config_append_result.
Qed.

Lemma config_search_news w : keeps_config (search_news w).
Proof.
  unfold search_news. apply config_for_each. intros q. unfold news_query.
  apply config_bind; [apply config_emit | intros _].
  destruct (w_news w q) as [entries|]; [|apply config_ret].
  apply config_bind; [apply config_emit | intros _].
  apply config_bind; [|intros _; apply config_ret].
  apply config_try_each_from. intros j e.
  assert (Hkeep : keeps_config (keep_entry e)).
  { unfold keep_entry.
    apply config_bind; [apply config_get_self | intros m].
    apply config_bind; [|intros _; apply config_ret].
    apply config_when, config_append_result. }
  unfold news_entry.
  destruct (e_published_parsed e) as [pub_date|]; [|exact Hkeep].
  destruct (datetime pub_date) as [entry_date|]; [|apply config_ret].
  destruct (too_old _ entry_date); [apply config_ret | exact Hkeep].
Qed.

Lemma config_generate w : keeps_config (generate_tear_sheets w).
Proof.
  unfold generate_tear_sheets.
  apply config_bind; [apply config_get_self | intros m].
  destruct (negb _); [apply config_ret|].
  apply config_for_each. intros r. unfold enrich.
  apply config_bind; [apply config_post | intros company_doc].
  apply config_bind; [apply config_when, config_append_tear_sheet | intros _].
  apply config_bind; [|intros _; apply config_emit].
  apply config_when, config_bind; [apply config_post | intros individual_doc].
  apply config_when, config_append_tear_sheet.
Qed.

Lemma self_send_email w st : self (exec (send_email w) st) = self st.
Proof.
  destruct (send_email_spec w st) as (evs & H & _). rewrite H. reflexivity.
Qed.

Lemma config_send_email w : keeps_config (send_email w).
Proof.
  intros st. change (snd (send_email w st)) with (exec (send_email w) st).
  rewrite self_send_email. reflexivity.
Qed.

Lemma config_run w : keeps_config (run w).
Proof.
  unfold run, scan.
  apply config_bind; [|intros _].
  { apply config_bind; [apply config_search_sec | intros _].
    apply config_search_news. }
  apply config_bind; [apply config_get_self | intros m].
  apply config_bind; [apply config_when, config_generate | intros _].
  apply config_send_email.
Qed.

(** X10: a run changes neither the addresses, the password nor the key, and
    once the scans are over no finding is added, dropped or changed:
    enrichment and mail only read them. *)
Theorem run_keeps_settings_and_findings :
  (forall w st, config (self (exec (run w) st)) = config (self st))
  /\ (forall w st,
        results (self (exec (generate_tear_sheets w) st)) = results (self st))
  /\ (forall w st, self (exec (send_email w) st) = self st)
  /\ (forall w st,
        results (self (exec (run w) st)) = results (self (exec (scan w) st))).
Proof.
  split; [intros w st; apply config_run|].
  split; [intros w st; apply keeps_generate|].
  split; [exact self_send_email | exact run_results].
Qed.

(** ** The counts of the report *)

Lemma from_feed_source w r :
  from_feed w r ->
  val_is (item r "source") (py "SEC EDGAR")
  = negb (val_startswith (py "News") (item r "source")).
Proof. intros [entries e _ _ | query entries e _ _ _]; reflexivity. Qed.

Lemma filter_length_cons {A} (f : A -> bool) x l :
  length (List.filter f (x :: l))
  = (if f x then 1 else 0) + length (List.filter f l).
Proof. simpl. destruct (f x); reflexivity. Qed.

Lemma source_counts w rs :
  Forall (from_feed w) rs -> num_sec rs + num_news rs = length rs.
Proof.
  unfold num_sec, num_news.
  induction 1 as [|r rs Hr _ IH]; [reflexivity|].
  rewrite !filter_length_cons. cbv beta. rewrite (from_feed_source w r Hr).
  destruct (val_startswith (py "News") (item r "source"));
    cbn [negb length]; lia.
Qed.

Lemma run_findings_all_from_feed w to from password key :
  Forall (from_feed w)
         (results (self (exec (run w) (start (CFOMonitor to from password key))))).
Proof.
  apply List.Forall_forall. intros r. apply run_findings_from_feed.
Qed.

(** X12: the report prints the number of findings, of distinct companies, of
    filings findings and of news findings; for the findings of a run the
    two counts by source add up to the number of findings, every finding
    being tagged either "SEC EDGAR" or with a text starting with "News". *)
Theorem report_counts_add_up :
  (forall today m,
      _create_email_body today m
      = email_head today (length (results m))
          (length (remove_dups (map (fun r => item r "company") (results m))))
          (num_sec (results m)) (num_news (results m))
          (length (tear_sheets m))
        ++ concat (map finding_line (results m)) ++ email_tail)
  /\ (forall w to from password key,
        num_sec (results (self (exec (run w)
                                 (start (CFOMonitor to from password key)))))
        + num_news (results (self (exec (run w)
                                    (start (CFOMonitor to from password key)))))
        = length (results (self (exec (run w)
                                  (start (CFOMonitor to from password key)))))).
Proof.
  split; [reflexivity|].
  intros w to from password key.
  apply (source_counts w), run_findings_all_from_feed.
Qed.

(** X11: every finding of a run holds a string under each of the keys source,
    company, title, summary, url and date, and holds the key individual,
    with a name or with [None]: no later subscript meets a missing
    key. *)
Theorem findings_hold_every_key :
  forall w to from password key r,
    In r (results (self (exec (run w) (start (CFOMonitor to from password key))))) ->
    Forall (fun k => exists s, r !! k = Some (PStr s)) text_keys
    /\ (exists name, r !! "individual"%string = Some (of_option name)).
Proof.
  intros w to from password key r Hin.
  apply run_findings_from_feed in Hin.
  destruct Hin as [entries e _ _ | query entries e _ _ _].
  - split; [|eexists; reflexivity].
    repeat (constructor; [eexists; reflexivity|]). constructor.
  - split; [|eexists; reflexivity].
    repeat (constructor; [eexists; reflexivity|]). constructor.
Qed.

Lemma findings_hold_every_key_witness :
  In (news_finding report_article)
     (results (self (exec (run one_article_world) (start (operator None)))))
  /\ Forall (fun k => exists s, news_finding report_article !! k = Some (PStr s))
            text_keys
  /\ news_finding report_article !! "individual"%string = Some PNone.
Proof.
  assert (H : In (news_finding report_article)
                (results (self (exec (run one_article_world)
                                     (start (operator None))))))
    by (vm_compute; left; reflexivity).
  split; [exact H|]. split; [|reflexivity].
  exact (proj1 (findings_hold_every_key one_article_world _ _ _ None _ H)).
Defined.

(** ** Mail *)

Lemma mail_events_app tr1 tr2 :
  mail_events (tr1 ++ tr2) = mail_events tr1 ++ mail_events tr2.
Proof. apply List.filter_app. Qed.

Lemma mail_events_quiet evs : Forall quiet evs -> mail_events evs = [].
Proof.
  induction 1 as [|e evs [He _] _ IH]; [reflexivity|].
  unfold mail_events in *. simpl. rewrite He. exact IH.
Qed.

Lemma mail_events_enrich w rs :
  mail_events (concat (map (enrich_events w) rs)) = [].
Proof.
  induction rs as [|r rs IH]; [reflexivity|].
  change (concat (map (enrich_events w) (r :: rs)))
    with (enrich_events w r ++ concat (map (enrich_events w) rs)).
  rewrite mail_events_app, IH. unfold enrich_events.
  destruct (has_individual r); reflexivity.
Qed.

Lemma scan_sends_no_mail w st :
  mail_events (trace (exec (scan w) st)) = mail_events (trace st).
Proof.
  destruct (scanned_scan w st) as [[evs [Ht Hq]] _ _ _].
  rewrite Ht, mail_events_app, (mail_events_quiet evs Hq), app_nil_r.
  reflexivity.
Qed.

Lemma generate_sends_no_mail w st :
  mail_events (trace (exec (generate_tear_sheets w) st)) = mail_events (trace st).
Proof.
  destruct (truthy (of_option (anthropic_api_key (self st)))) eqn:E.
  - rewrite (generate_trace w st E).
    rewrite mail_events_app, mail_events_enrich, app_nil_r. reflexivity.
  - unfold exec. rewrite generate_without_key by exact E. reflexivity.
Qed.

Lemma send_email_outcome w st :
  exists evs,
    trace (exec (send_email w) st) = trace st ++ evs
    /\ mail_events evs = evs
    /\ mail_outcome w (self st) evs.
Proof.
  unfold send_email. rewrite exec_get_self.
  destruct (results (self st)) as [|r rs] eqn:Hr.
  - exists []. rewrite exec_ret, app_nil_r.
    split; [reflexivity|]. split; [reflexivity|].
    apply mail_none, Hr.
  - assert (Hne : results (self st) <> []) by (rewrite Hr; discriminate).
    destruct (w_smtp w) eqn:Hs.
    + exists [EvSmtpConnect]. split; [reflexivity|]. split; [reflexivity|].
      apply mail_connect_failed; assumption.
    + eexists [EvSmtpConnect; EvSmtpLogin _ _].
      split; [unfold exec, bind, emit; simpl; rewrite <- app_assoc; reflexivity|].
      split; [reflexivity|]. apply mail_login_failed; assumption.
    + eexists [EvSmtpConnect; EvSmtpLogin _ _; EvSmtpSend _].
      split; [unfold exec, bind, emit; simpl; rewrite <- !app_assoc; reflexivity|].
      split; [reflexivity|].
      apply mail_submitted; [assumption | left; assumption | reflexivity ..].
    + eexists [EvSmtpConnect; EvSmtpLogin _ _; EvSmtpSend _].
      split; [unfold exec, bind, emit; simpl; rewrite <- !app_assoc; reflexivity|].
      split; [reflexivity|].
      apply mail_submitted; [assumption | right; assumption | reflexivity ..].
Qed.

(** X13: a run hands at most one message to the mail relay, after a
    connection and a login with the sender's address and password, and
    none when there is no finding; the message goes from the sender to the
    recipient and its body is the report on the final findings.  A failed
    connection or login ends the mail step without a message. *)
Theorem run_mail_outcome :
  forall w to from password key,
    mail_outcome w
      (self (exec (run w) (start (CFOMonitor to from password key))))
      (mail_events (trace (exec (run w) (start (CFOMonitor to from password key))))).
Proof.
  intros w to from password key.
  set (st0 := start (CFOMonitor to from password key)).
  unfold exec at 1 2. rewrite run_unfold.
  set (st1 := exec (scan w) st0).
  set (st2 := exec (when (negb (bool_decide (results (self st1) = [])))
                         (generate_tear_sheets w)) st1).
  assert (Hquiet : mail_events (trace st2) = []).
  { unfold st2. destruct (negb _).
    - rewrite exec_when_true, generate_sends_no_mail.
      unfold st1. rewrite scan_sends_no_mail. reflexivity.
    - rewrite exec_when_false. unfold st1. rewrite scan_sends_no_mail.
      reflexivity. }
  change (snd (send_email w st2)) with (exec (send_email w) st2).
  destruct (send_email_outcome w st2) as (evs & Ht & Hm & Hout).
  rewrite self_send_email, Ht, mail_events_app, Hquiet, Hm. exact Hout.
Qed.

(** ** More on the extractors *)

Lemma isspace_lower_char c : isspace (lower_char c) = isspace c.
Proof. destruct c as [[] [] [] [] [] [] [] []]; reflexivity. Qed.

Lemma isspace_upper_char c : isspace (upper_char c) = isspace c.
Proof. destruct c as [[] [] [] [] [] [] [] []]; reflexivity. Qed.

Lemma trimmed_strip_id s : trimmed s -> strip s = s.
Proof.
  intros [Hs Hl]. unfold strip. rewrite (lstrip_clean s Hs).
  apply rstrip_fixed_iff, Hl.
Qed.

Lemma rstrip_last s c : last (rstrip s) = Some c -> isspace c = false.
Proof.
  induction s as [|d s IH] using rev_ind; [discriminate|].
  rewrite rstrip_snoc. destruct (isspace d) eqn:E; [exact IH|].
  rewrite last_snoc. intros [= <-]. exact E.
Qed.

Lemma strip_trimmed s : trimmed (strip s).
Proof.
  split; [apply strip_starts_clean|].
  intros c. unfold strip. apply rstrip_last.
Qed.

Lemma last_map {A B} (f : A -> B) (l : list A) :
  last (map f l) = option_map f (last l).
Proof.
  induction l as [|a l IH]; [reflexivity|].
  destruct l as [|b l]; [reflexivity|]. exact IH.
Qed.

Lemma titlecase_from_spaces s : forall b,
  map isspace (titlecase_from b s) = map isspace s.
Proof.
  induction s as [|c s IH]; intros b; [reflexivity|].
  simpl. rewrite IH. f_equal.
  destruct b; [apply isspace_lower_char | apply isspace_upper_char].
Qed.

(** Being trimmed depends only on where the whitespace is. *)
Lemma trimmed_by_spaces s t :
  map isspace s = map isspace t -> trimmed s -> trimmed t.
Proof.
  intros H [Hs Hl]. split.
  - destruct s as [|c s], t as [|d t]; try discriminate; [exact I|].
    simpl in *. congruence.
  - intros d Hd. pose proof (last_map isspace t) as Ht.
    rewrite <- H, last_map, Hd in Ht. simpl in Ht.
    destruct (last s) as [c|]; [|discriminate].
    simpl in Ht. injection Ht as Ht. rewrite <- Ht. apply Hl. reflexivity.
Qed.

Lemma titlecase_from_trimmed s b : trimmed s -> trimmed (titlecase_from b s).
Proof.
  apply trimmed_by_spaces. symmetry. apply titlecase_from_spaces.
Qed.

Lemma scan_keywords_cases title : forall kws,
  scan_keywords title kws = company_sentinel
  \/ exists keyword,
       In keyword kws /\ contains keyword (lower title) = true
       /\ split_head keyword (lower title) <> []
       /\ scan_keywords title kws
          = titlecase (strip (split_head keyword (lower title))).
Proof.
  induction kws as [|k kws IH]; [left; reflexivity|].
  simpl. destruct (contains k (lower title)) eqn:Hc.
  - destruct (split_head k (lower title)) as [|c p] eqn:Hp.
    + destruct IH as [IH|(kw & Hin & H1 & H2 & H3)]; [left; exact IH|].
      right. exists kw. auto.
    + right. exists k. rewrite Hp. repeat split; auto; discriminate.
  - destruct IH as [IH|(kw & Hin & H1 & H2 & H3)]; [left; exact IH|].
    right. exists kw. auto.
Qed.

Lemma split_head_head sep c s p q :
  split_head sep (c :: s) = p :: q -> p = c.
Proof. simpl. destruct (startswith sep (c :: s)); congruence. Qed.

(** X15: the extracted company never begins or ends with whitespace, and it is
    not empty when the title does not begin with whitespace. *)
Theorem company_is_trimmed :
  (forall title, strip (_extract_company title) = _extract_company title)
  /\ (forall title, starts_clean title -> _extract_company title <> []).
Proof.
  split.
  - intros title. unfold _extract_company.
    destruct (scan_keywords_cases title company_keywords)
      as [->|(kw & _ & _ & _ & ->)]; [reflexivity|].
    apply trimmed_strip_id, titlecase_from_trimmed, strip_trimmed.
  - intros title Hclean. unfold _extract_company.
    destruct (scan_keywords_cases title company_keywords)
      as [->|(kw & _ & _ & Hne & ->)]; [discriminate|].
    destruct title as [|c title]; [elim Hne; reflexivity|].
    simpl in Hclean.
    change (lower (c :: title)) with (lower_char c :: lower title) in *.
    destruct (split_head kw (lower_char c :: lower title))
      as [|p q] eqn:Hp; [elim Hne; reflexivity|].
    apply split_head_head in Hp as Hpc. subst p.
    unfold strip. simpl lstrip. rewrite isspace_lower_char, Hclean.
    rewrite rstrip_cons by (rewrite isspace_lower_char; exact Hclean).
    discriminate.
Qed.

(** A title that begins with a letter gives a company; one that begins
    with a space before the verb gives the empty company. *)
Lemma company_is_trimmed_witness :
  starts_clean (py "Acme Corp appoints Jane Smith as CFO")
  /\ _extract_company (py "Acme Corp appoints Jane Smith as CFO") <> []
  /\ _extract_company (py " names Bob Jones as CFO") = [].
Proof.
  assert (H : starts_clean (py "Acme Corp appoints Jane Smith as CFO"))
    by reflexivity.
  split; [exact H|]. split; [|reflexivity].
  exact (proj2 company_is_trimmed _ H).
Defined.

Lemma lstrip_nil_iff s : lstrip s = [] <-> Forall (fun c => isspace c = true) s.
Proof.
  induction s as [|c s IH]; simpl; [split; [constructor | reflexivity]|].
  destruct (isspace c) eqn:E.
  - rewrite IH. split; [intros H; constructor; assumption|].
    intros H. inversion H; assumption.
  - split; [discriminate|]. intros H. inversion H; congruence.
Qed.

Lemma strip_nil_iff s : strip s = [] <-> Forall (fun c => isspace c = true) s.
Proof.
  rewrite <- lstrip_nil_iff. unfold strip. split.
  - intros H. pose proof (lstrip_starts_clean s) as Hc.
    destruct (lstrip s) as [|c t]; [reflexivity|].
    simpl in Hc. rewrite rstrip_cons in H by exact Hc. discriminate.
  - intros ->. reflexivity.
Qed.

(** X16: the sanitized name is empty exactly when the input holds no word
    character and no hyphen; the file name of the tear sheet is then the
    bare suffix. *)
Theorem sanitized_name_empty_iff :
  forall s,
    _sanitize_filename s = []
    <-> Forall (fun c => is_word c = false /\ c <> "-"%char) s.
Proof.
  intros s. unfold _sanitize_filename.
  assert (Htake : forall x : str, take 50 x = [] <-> x = []).
  { intros [|c x]; simpl; split; congruence. }
  assert (Hrep : forall x : str, replace " " "_" x = [] <-> x = []).
  { intros [|c x]; simpl; split; congruence. }
  rewrite Htake, Hrep, strip_nil_iff, !List.Forall_forall.
  split.
  - intros H c Hc. destruct (is_word c) eqn:Ew.
    + assert (Hk : kept_char c = true) by (unfold kept_char; rewrite Ew; reflexivity).
      assert (Hs : isspace c = true) by (apply H, List.filter_In; auto).
      rewrite (isspace_not_word c Hs) in Ew. discriminate.
    + split; [reflexivity|]. intros ->.
      assert (Hs : isspace "-" = true) by (apply H, List.filter_In; auto).
      discriminate.
  - intros H c Hc. apply List.filter_In in Hc as [Hin Hk].
    destruct (H c Hin) as [Hw Hh]. unfold kept_char in Hk. rewrite Hw in Hk.
    simpl in Hk. apply orb_true_iff in Hk as [Hk|Hk]; [exact Hk|].
    apply Ascii.eqb_eq in Hk. contradiction.
Qed.

(** ** The shape of an extracted name *)

(** A successful match consumes a string of the pattern and hands the
    rest to the continuation; a pattern without a group hands on the
    group it was given. *)
Lemma bt_sound {A} (r : regex) : forall s g (k : @cont A) a,
  bt r s g k = Some a ->
  exists u s1 g1,
    s = u ++ s1 /\ matches r u /\ k s1 g1 = Some a
    /\ (group_free r = true -> g1 = g).
Proof.
  induction r as [|c|p|r1 IH1 r2 IH2|r1 IH1 r2 IH2|r1 IH1|r1 IH1];
    intros s g k a H; simpl in H.
  - exists [], s, g. repeat split; [constructor | exact H].
  - destruct s as [|x s]; [discriminate|].
    destruct (Ascii.eqb_spec x c) as [->|]; [|discriminate].
    exists [c], s, g. repeat split; [constructor | exact H].
  - destruct s as [|x s]; [discriminate|].
    destruct (p x) eqn:E; [|discriminate].
    exists [x], s, g. repeat split; [constructor; exact E | exact H].
  - apply IH1 in H as (u1 & s1 & g1 & -> & Hm1 & H & Hg1).
    apply IH2 in H as (u2 & s2 & g2 & -> & Hm2 & H & Hg2).
    exists (u1 ++ u2), s2, g2. rewrite app_assoc.
    repeat split; [constructor; assumption | exact H |].
    simpl. intros Hf. apply andb_true_iff in Hf as [Hf1 Hf2].
    rewrite (Hg2 Hf2). apply Hg1, Hf1.
  - unfold orelse in H. destruct (bt r1 s g k) as [a'|] eqn:E.
    + injection H as ->. apply IH1 in E as (u & s1 & g1 & -> & Hm & H & Hg).
      exists u, s1, g1. repeat split; [apply matches_alt_l, Hm | exact H |].
      simpl. intros Hf. apply andb_true_iff in Hf as [Hf _]. apply Hg, Hf.
    + apply IH2 in H as (u & s1 & g1 & -> & Hm & H & Hg).
      exists u, s1, g1. repeat split; [apply matches_alt_r, Hm | exact H |].
      simpl. intros Hf. apply andb_true_iff in Hf as [_ Hf]. apply Hg, Hf.
  - assert (Hrep : forall n s0 g0,
               rep (bt r1) n s0 g0 k = Some a ->
               exists u s1 g1,
                 s0 = u ++ s1 /\ matches (Plus r1) u /\ k s1 g1 = Some a
                 /\ (group_free (Plus r1) = true -> g1 = g0)).
    { induction n as [|n IHn]; intros s0 g0 H0; [discriminate|].
      simpl in H0. apply IH1 in H0 as (u & s1 & g1 & -> & Hm & H0 & Hg).
      unfold orelse in H0.
      destruct (if (length s1 <? length (u ++ s1))%nat
                then rep (bt r1) n s1 g1 k else None) as [a'|] eqn:E.
      - injection H0 as ->.
        destruct (length s1 <? length (u ++ s1))%nat; [|discriminate].
        apply IHn in E as (v & s2 & g2 & -> & Hmv & H0 & Hg2).
        exists (u ++ v), s2, g2. rewrite app_assoc.
        repeat split; [apply matches_plus_more; assumption | exact H0 |].
        simpl. intros Hf. rewrite (Hg2 Hf). apply Hg, Hf.
      - exists u, s1, g1.
        repeat split; [apply matches_plus_one, Hm | exact H0 |].
        simpl. intros Hf. apply Hg, Hf. }
    apply (Hrep (S (length s)) s g). exact H.
  - apply IH1 in H as (u & s1 & g1 & -> & Hm & H & _).
    exists u, s1, (Some (take (length (u ++ s1) - length s1) (u ++ s1))).
    repeat split; [constructor; exact Hm | exact H | discriminate].
Qed.

(** Closing a group captures the string its body consumed. *)
Lemma group_captured {A} (r : regex) s g (k : @cont A) a :
  bt (Group r) s g k = Some a ->
  exists u s1, s = u ++ s1 /\ matches r u /\ k s1 (Some u) = Some a.
Proof.
  simpl. intros H. apply bt_sound in H as (u & s1 & g1 & -> & Hm & H & _).
  exists u, s1. repeat split; [exact Hm|].
  replace (length (u ++ s1) - length s1) with (length u) in H
    by (rewrite length_app; lia).
  rewrite take_app_length in H. exact H.
Qed.

Lemma captures_after (r1 r2 : regex) :
  captures_name (Seq r1 (Seq r2 (Group name_re))).
Proof.
  intros s g H. unfold match_here in H.
  change (bt r1 s None
            (fun s1 g1 =>
               bt r2 s1 g1
                  (fun s2 g2 =>
                     bt (Group name_re) s2 g2 (fun _ g' => Some g')))
          = Some g) in H.
  apply bt_sound in H as (u1 & s1 & g1 & -> & _ & H & _).
  apply bt_sound in H as (u2 & s2 & g2 & -> & _ & H & _).
  apply group_captured in H as (u & s3 & -> & Hm & H).
  injection H as <-.
  exists (u1 ++ u2), u, s3. rewrite <- app_assoc. auto.
Qed.

Lemma captures_before (r1 r2 : regex) :
  group_free r1 = true -> group_free r2 = true ->
  captures_name (Seq (Group name_re) (Seq r1 r2)).
Proof.
  intros H1 H2 s g H. unfold match_here in H.
  change (bt (Group name_re) s None
            (fun s1 g1 => bt (Seq r1 r2) s1 g1 (fun _ g' => Some g'))
          = Some g) in H.
  apply group_captured in H as (u & s1 & -> & Hm & H).
  apply bt_sound in H as (v & s2 & g2 & -> & _ & H & Hg).
  injection H as <-.
  exists [], u, (v ++ s2). repeat split; [exact Hm|].
  apply Hg. simpl. rewrite H1, H2. reflexivity.
Qed.

Lemma patterns_capture_names : Forall captures_name patterns.
Proof.
  repeat constructor.
  - apply captures_after.
  - apply captures_before; reflexivity.
  - apply captures_after.
Qed.

Lemma search_captures pattern text m :
  captures_name pattern ->
  search pattern text = Some m ->
  exists pre u post,
    text = pre ++ u ++ post /\ matches name_re u /\ m_group1 m = Some u.
Proof.
  intros Hc H. apply search_leftmost in H as [H _].
  apply Hc in H as (pre & u & post & Hs & Hm & Hg).
  exists (take (m_start m) text ++ pre), u, post.
  rewrite <- app_assoc, <- Hs, take_drop. auto.
Qed.

Lemma plus_cls_shape p u :
  matches (Plus (Cls p)) u -> u <> [] /\ Forall (fun c => p c = true) u.
Proof.
  intros H. remember (Plus (Cls p)) as r eqn:Hr.
  induction H as [| | | |? ? ? _ _|? ? ? _ _|r0 u H _|r0 u v H _ _ IH|];
    try discriminate; injection Hr as ->.
  - inversion H; subst. split; [discriminate | repeat constructor; assumption].
  - inversion H; subst. destruct (IH eq_refl) as [_ Hv].
    split; [discriminate | constructor; assumption].
Qed.

Lemma cap_word_shape u :
  matches cap_word u ->
  exists c rest,
    u = c :: rest /\ is_AZ c = true /\ rest <> []
    /\ Forall (fun x => is_az x = true) rest.
Proof.
  unfold cap_word. intros H. inversion H as [| | |? ? a b Ha Hb| | | | |]; subst.
  inversion Ha; subst. apply plus_cls_shape in Hb as [Hne Hall].
  eexists _, b. repeat split; assumption.
Qed.

Lemma az_is_name_char c : is_az c = true -> name_char c = true.
Proof. unfold name_char. intros ->. rewrite orb_true_r. reflexivity. Qed.

Lemma last_app_nonempty {A} (u v : list A) : v <> [] -> last (u ++ v) = last v.
Proof.
  intros Hv. destruct v as [|x v] using rev_ind; [contradiction|].
  rewrite app_assoc, !last_snoc. reflexivity.
Qed.

Lemma cap_word_facts u :
  matches cap_word u ->
  u <> [] /\ Forall (fun c => name_char c = true) u
  /\ exists c, last u = Some c /\ is_az c = true.
Proof.
  intros H. apply cap_word_shape in H as (c & rest & -> & Hc & Hne & Hall).
  split; [discriminate|]. split.
  - constructor; [unfold name_char; rewrite Hc; reflexivity|].
    eapply Forall_impl; [exact Hall | apply az_is_name_char].
  - destruct rest as [|x rest] using rev_ind; [contradiction|].
    exists x. rewrite app_comm_cons, last_snoc. split; [reflexivity|].
    apply Forall_app in Hall as [_ Hx]. inversion Hx; assumption.
Qed.

Lemma name_tail_facts v :
  matches (Plus (Seq ws cap_word)) v ->
  v <> [] /\ Forall (fun c => name_char c = true) v
  /\ exists c, last v = Some c /\ is_az c = true.
Proof.
  intros H. remember (Plus (Seq ws cap_word)) as r eqn:Hr.
  assert (Hone : forall x, matches (Seq ws cap_word) x ->
                 x <> [] /\ Forall (fun c => name_char c = true) x
                 /\ exists c, last x = Some c /\ is_az c = true).
  { intros x Hx. inversion Hx as [| | |? ? a b Ha Hb| | | | |]; subst.
    apply plus_cls_shape in Ha as [_ Hsp].
    apply cap_word_facts in Hb as (Hne & Hall & c & Hl & Hc).
    split; [destruct a; [exact Hne | discriminate]|]. split.
    - apply Forall_app. split; [|exact Hall].
      eapply Forall_impl; [exact Hsp|]. intros y Hy. unfold name_char.
      rewrite Hy, orb_true_r. reflexivity.
    - exists c. rewrite last_app_nonempty by exact Hne. auto. }
  induction H as [| | | |? ? ? _ _|? ? ? _ _|r0 u H _|r0 u v H _ Hv IH|];
    try discriminate; injection Hr as ->.
  - apply Hone, H.
  - destruct (Hone u H) as (Hu & Hau & _).
    destruct (IH eq_refl) as (Hnv & Hav & c & Hl & Hc).
    split; [destruct u; [contradiction | discriminate]|].
    split; [apply Forall_app; split; assumption|].
    exists c. rewrite last_app_nonempty by exact Hnv. auto.
Qed.

(** A string of [name_re]: capital first, lower-case letter last, letters
    and whitespace throughout. *)
Lemma name_re_shape u :
  matches name_re u ->
  (exists c rest, u = c :: rest /\ is_AZ c = true)
  /\ Forall (fun c => name_char c = true) u
  /\ exists c, last u = Some c /\ is_az c = true.
Proof.
  unfold name_re. intros H. inversion H as [| | |? ? a b Ha Hb| | | | |]; subst.
  apply name_tail_facts in Hb as (Hnb & Hab & c & Hl & Hc).
  pose proof (cap_word_facts a Ha) as (_ & Haa & _).
  apply cap_word_shape in Ha as (x & rest & -> & Hx & _ & _).
  split; [exists x, (rest ++ b); auto|].
  split; [apply Forall_app; split; assumption|].
  exists c. rewrite last_app_nonempty by exact Hnb. auto.
Qed.

Lemma az_not_space c : is_az c = true -> isspace c = false.
Proof. destruct c as [[] [] [] [] [] [] [] []]; vm_compute; congruence. Qed.

Lemma AZ_not_space c : is_AZ c = true -> isspace c = false.
Proof. destruct c as [[] [] [] [] [] [] [] []]; vm_compute; congruence. Qed.

Lemma name_re_trimmed u : matches name_re u -> strip u = u.
Proof.
  intros H. apply name_re_shape in H as ((c & rest & -> & Hc) & _ & d & Hl & Hd).
  apply trimmed_strip_id. split.
  - simpl. apply AZ_not_space, Hc.
  - intros x Hx. rewrite Hl in Hx. injection Hx as <-. apply az_not_space, Hd.
Qed.

Lemma scan_patterns_origin text : forall ps name,
  scan_patterns text ps = Some name ->
  exists pattern m,
    In pattern ps /\ search pattern text = Some m /\ name = strip (group1 m).
Proof.
  induction ps as [|p ps IH]; intros name H; [discriminate|].
  simpl in H. destruct (search p text) as [m|] eqn:E.
  - destruct (name_ok (strip (group1 m))).
    + injection H as <-. exists p, m. repeat split; [left; reflexivity | exact E].
    + apply IH in H as (q & m' & Hin & Hs & Hn). exists q, m'.
      repeat split; [right; exact Hin | exact Hs | exact Hn].
  - apply IH in H as (q & m' & Hin & Hs & Hn). exists q, m'.
    repeat split; [right; exact Hin | exact Hs | exact Hn].
Qed.

(** X17: an extracted name stands verbatim in the title, a space and the
    summary put together; it begins with a capital letter, ends with a
    lower-case letter and holds only letters and whitespace. *)
Theorem extracted_name_shape :
  forall title summary name,
    _extract_individual_name title summary = Some name ->
    (exists pre post, title ++ py " " ++ summary = pre ++ name ++ post)
    /\ (exists c rest, name = c :: rest /\ is_AZ c = true)
    /\ Forall (fun c => name_char c = true) name
    /\ (exists c, last name = Some c /\ is_az c = true).
Proof.
  intros title summary name H. unfold _extract_individual_name in H.
  apply scan_patterns_origin in H as (p & m & Hin & Hs & ->).
  pose proof patterns_capture_names as Hcap.
  rewrite List.Forall_forall in Hcap.
  destruct (search_captures p _ m (Hcap p Hin) Hs)
    as (pre & u & post & Htext & Hm & Hg).
  unfold group1. rewrite Hg. simpl. rewrite (name_re_trimmed u Hm).
  split; [exists pre, post; exact Htext|].
  apply name_re_shape, Hm.
Qed.

Lemma extracted_name_shape_witness :
  _extract_individual_name (py "Acme Corp appoints Jane Smith as CFO") []
    = Some (py "Jane Smith")
  /\ (exists pre post,
        py "Acme Corp appoints Jane Smith as CFO" ++ py " " ++ []
        = pre ++ py "Jane Smith" ++ post)
  /\ Forall (fun c => name_char c = true) (py "Jane Smith").
Proof.
  assert (H : _extract_individual_name
                (py "Acme Corp appoints Jane Smith as CFO") []
              = Some (py "Jane Smith")) by (vm_compute; reflexivity).
  destruct (extracted_name_shape _ _ _ H) as (Hsub & _ & Hall & _).
  split; [exact H|]. split; [exact Hsub | exact Hall].
Defined.

(** ** When no name is extracted *)

Lemma split_acc_word w : forall cur rest,
  Forall (fun c => isspace c = false) w ->
  split_acc cur (w ++ rest) = split_acc (rev w ++ cur) rest.
Proof.
  induction w as [|c w IH]; intros cur rest H; [reflexivity|].
  inversion H as [|? ? Hc Hw]; subst. simpl. rewrite Hc, IH by exact Hw.
  rewrite <- app_assoc. reflexivity.
Qed.

Lemma split_acc_spaces sp : forall rest,
  Forall (fun c => isspace c = true) sp ->
  split_acc [] (sp ++ rest) = split_acc [] rest.
Proof.
  induction sp as [|c sp IH]; intros rest H; [reflexivity|].
  inversion H as [|? ? Hc Hsp]; subst. simpl. rewrite Hc. apply IH, Hsp.
Qed.

Lemma split_acc_pending cur s : cur <> [] -> 1 <= length (split_acc cur s).
Proof.
  revert cur. induction s as [|c s IH]; intros cur Hne; simpl.
  - case_decide; [contradiction | simpl; lia].
  - destruct (isspace c).
    + case_decide; [contradiction | simpl; lia].
    + apply IH. discriminate.
Qed.

Lemma spaced_word_shape x :
  matches (Seq ws cap_word) x ->
  exists c sp w,
    x = (c :: sp) ++ w /\ Forall (fun y => isspace y = true) (c :: sp)
    /\ w <> [] /\ Forall (fun y => isspace y = false) w.
Proof.
  intros H. inversion H as [| | |? ? a b Ha Hb| | | | |]; subst.
  apply plus_cls_shape in Ha as [Hne Hsp].
  apply cap_word_shape in Hb as (c & rest & -> & Hc & _ & Hall).
  destruct a as [|y sp]; [contradiction|].
  exists y, sp, (c :: rest). repeat split; [exact Hsp | discriminate |].
  constructor; [apply AZ_not_space, Hc|].
  eapply Forall_impl; [exact Hall | apply az_not_space].
Qed.

Lemma plus_first r v :
  matches (Plus r) v -> exists x y, v = x ++ y /\ matches r x.
Proof.
  intros H. inversion H; subst.
  - exists v, []. rewrite app_nil_r. auto.
  - eexists _, _. eauto.
Qed.

(** A string of [name_re] has two words or more. *)
Lemma name_re_two_words u : matches name_re u -> 2 <= length (split u).
Proof.
  unfold name_re. intros H. inversion H as [| | |? ? a b Ha Hb| | | | |]; subst.
  apply cap_word_shape in Ha as (c & rest & -> & Hc & _ & Hall).
  apply plus_first in Hb as (x & y & -> & Hx).
  apply spaced_word_shape in Hx as (s0 & sp & w & -> & Hsp & Hw & Hns).
  unfold split.
  rewrite split_acc_word
    by (constructor; [apply AZ_not_space, Hc|];
        eapply Forall_impl; [exact Hall | apply az_not_space]).
  inversion Hsp as [|? ? Hs0 Hsp']; subst.
  rewrite <- !app_assoc. simpl. rewrite Hs0.
  case_decide as Hnil.
  { destruct (rev rest); discriminate Hnil. }
  simpl. rewrite split_acc_spaces by exact Hsp'.
  rewrite split_acc_word by exact Hns.
  pose proof (split_acc_pending (rev w ++ []) y) as Hp.
  assert (Hne : rev w ++ [] <> []).
  { rewrite app_nil_r. intros E. apply Hw.
    rewrite <- (rev_involutive w), E. reflexivity. }
  specialize (Hp Hne). lia.
Qed.

Lemma scan_patterns_none text : forall ps,
  scan_patterns text ps = None
  <-> forall pattern m,
        In pattern ps -> search pattern text = Some m ->
        name_ok (strip (group1 m)) = false.
Proof.
  induction ps as [|p ps IH]; simpl.
  - split; [intros _ q m [] | reflexivity].
  - destruct (search p text) as [m|] eqn:E.
    + destruct (name_ok (strip (group1 m))) eqn:Hok.
      * split; [discriminate|]. intros H.
        rewrite (H p m (or_introl eq_refl) E) in Hok. discriminate.
      * rewrite IH. split.
        -- intros H q m' [<-|Hin] Hs; [congruence | eapply H; eassumption].
        -- intros H q m' Hin Hs. apply (H q m' (or_intror Hin) Hs).
    + rewrite IH. split.
      * intros H q m' [<-|Hin] Hs; [congruence | eapply H; eassumption].
      * intros H q m' Hin Hs. apply (H q m' (or_intror Hin) Hs).
Qed.

(** The filter on a capture of one of the patterns comes down to the
    list of two phrases: the capture always has two words or more. *)
Lemma name_ok_capture pattern text m :
  In pattern patterns -> search pattern text = Some m ->
  name_ok (strip (group1 m)) = negb (str_in (group1 m) false_positives).
Proof.
  intros Hin Hs. pose proof patterns_capture_names as Hcap.
  rewrite List.Forall_forall in Hcap.
  destruct (search_captures pattern text m (Hcap pattern Hin) Hs)
    as (_ & u & _ & _ & Hm & Hg).
  unfold group1. rewrite Hg. simpl default.
  rewrite (name_re_trimmed u Hm). unfold name_ok.
  pose proof (name_re_two_words u Hm) as H2.
  apply Nat.leb_le in H2. rewrite H2. reflexivity.
Qed.

(** X18: no name is extracted exactly when each pattern either matches
    nowhere in the text or has "Chief Financial" or "Financial Officer" as
    the capture of its first match.  The test on the number of words never
    rejects a capture: the patterns capture two words or more. *)
Theorem name_absent_iff :
  forall title summary,
    _extract_individual_name title summary = None
    <-> forall pattern m,
          In pattern patterns ->
          search pattern (title ++ py " " ++ summary) = Some m ->
          str_in (group1 m) false_positives = true.
Proof.
  intros title summary. unfold _extract_individual_name.
  rewrite scan_patterns_none. split.
  - intros H p m Hin Hs. specialize (H p m Hin Hs).
    rewrite (name_ok_capture p _ m Hin Hs) in H.
    apply negb_false_iff, H.
  - intros H p m Hin Hs. rewrite (name_ok_capture p _ m Hin Hs).
    apply negb_false_iff, (H p m Hin Hs).
Qed.

(** ** The stages of a run *)

(** X7: the scans only append: the findings already there stay in place at
    the front, each new one is built from an entry of a feed, the tear
    sheets are not touched, and the events added are feed fetches and
    pauses, never an enrichment request or a mail event. *)
Theorem scans_only_append :
  forall w st,
    exists evs rs,
      trace (exec (scan w) st) = trace st ++ evs
      /\ Forall quiet evs
      /\ results (self (exec (scan w) st)) = results (self st) ++ rs
      /\ Forall (from_feed w) rs
      /\ tear_sheets (self (exec (scan w) st)) = tear_sheets (self st).
Proof.
  intros w st.
  destruct (scanned_scan w st) as [(evs & Ht & Hq) (rs & Hr & Hf) Hs _].
  exists evs, rs. auto.
Qed.

Lemma news_entry_makes_seen now e st :
  fresh now e = true ->
  url_seen (default [] (e_link e))
           (results (self (exec (news_entry now e) st))) = true.
Proof.
  intros Hfresh. rewrite news_entry_fresh by exact Hfresh.
  destruct (url_seen (default [] (e_link e)) (results (self st))) eqn:E;
    [exact E|].
  rewrite results_append. apply url_seen_iff. unfold urls.
  rewrite map_app. apply in_or_app. right. left. reflexivity.
Qed.

(** X6: of two news entries with the same link the first one examined wins:
    once an entry that gets past the recency test (no timestamp, or one
    that converts and is two days old or less) has been examined, a later
    entry with its link, or a later entry without a link when it has none,
    changes nothing. *)
Theorem first_news_entry_wins :
  forall now1 now2 e1 e2 st,
    default [] (e_link e1) = default [] (e_link e2) ->
    fresh now1 e1 = true ->
    exec (news_entry now2 e2) (exec (news_entry now1 e1) st)
    = exec (news_entry now1 e1) st.
Proof.
  intros now1 now2 e1 e2 st Hlink Hfresh.
  apply news_entry_seen. rewrite <- Hlink.
  apply news_entry_makes_seen, Hfresh.
Qed.

Lemma first_news_entry_wins_witness :
  default [] (e_link report_article) = default [] (e_link report_article)
  /\ fresh 0 report_article = true
  /\ results (self (exec (news_entry 0 report_article)
                         (exec (news_entry 0 report_article)
                               (start (operator None)))))
     = [news_finding report_article].
Proof.
  assert (H1 : default [] (e_link report_article)
               = default [] (e_link report_article)) by reflexivity.
  assert (H2 : fresh 0 report_article = true) by reflexivity.
  split; [exact H1|]. split; [exact H2|].
  rewrite (first_news_entry_wins 0 0 report_article report_article
             (start (operator None)) H1 H2).
  reflexivity.
Defined.

(** X14: a run works in three stages, each on the whole output of the one
    before: the events of the scans come first; then, when a key is set,
    the requests and pauses of the enrichment of the final findings, in
    their order; then the mail events. *)
Theorem run_stages :
  forall w to from password key,
    exists scan_events mail,
      trace (exec (run w) (start (CFOMonitor to from password key)))
      = scan_events
          ++ (if truthy (of_option key)
              then concat (map (enrich_events w)
                             (results (self (exec (run w)
                                (start (CFOMonitor to from password key))))))
              else [])
          ++ mail
      /\ Forall quiet scan_events
      /\ mail_outcome w
           (self (exec (run w) (start (CFOMonitor to from password key))))
           mail.
Proof.
  intros w to from password key.
  set (st0 := start (CFOMonitor to from password key)).
  rewrite run_results.
  destruct (scanned_scan w st0) as [(evs & Ht & Hq) _ _ Hk].
  unfold exec at 1 3. rewrite run_unfold.
  set (st1 := exec (scan w) st0) in *.
  set (st2 := exec (when (negb (bool_decide (results (self st1) = [])))
                         (generate_tear_sheets w)) st1).
  change (snd (send_email w st2)) with (exec (send_email w) st2).
  destruct (send_email_outcome w st2) as (mail & Hmail & _ & Hout).
  rewrite self_send_email, Hmail.
  exists evs, mail. split; [|split; [exact Hq | exact Hout]].
  rewrite app_assoc. f_equal.
  change (anthropic_api_key (self st0)) with key in Hk.
  unfold st2. destruct (bool_decide (results (self st1) = [])) eqn:Hnil.
  - apply bool_decide_eq_true in Hnil. rewrite Hnil. simpl negb.
    rewrite exec_when_false, Ht. simpl.
    destruct (truthy (of_option key)); rewrite ?app_nil_r; reflexivity.
  - simpl negb. rewrite exec_when_true.
    destruct (truthy (of_option key)) eqn:Hkey.
    + rewrite (generate_trace w st1
                 (eq_trans (f_equal (fun k => truthy (of_option k)) Hk) Hkey)).
      rewrite Ht. reflexivity.
    + unfold exec at 1. rewrite generate_without_key
        by (rewrite Hk; exact Hkey).
      simpl. rewrite Ht, app_nil_r. reflexivity.
Qed.
